(** * Label conversion for token classification

    A shallow embedding of
    [src/ai_dataset_generator/dataset_transformations/token_classification.py]:
    the forward converter [token_labels_to_spans], the backward converter
    [spans_to_token_labels] and the label remapper [replace_token_labels].

    Python strings are modelled as [string]; one [ascii] stands for one code
    point below 256 (Latin-1), on which [str.lower] and [str.strip] are
    length preserving respectively character-wise.  Dictionaries keyed by
    label ids or label names are [gmap]s; the dictionary whose iteration
    order is observable ([span_labels]) is an association list. *)

From Stdlib Require Import String Ascii ZArith Lia.
From stdpp Require Import base option list gmap strings sets.


(* stdpp blocks the unfolding of string concatenation; the proofs below
   compute with it. *)
#[local] Arguments String.append !_ _ / : simpl nomatch.

(** * Exceptions *)

Inductive exn : Type :=
  | ValueError
  | KeyError
  | IndexError
  | ArrowInvalid
  | OverflowError.

Inductive result (A : Type) : Type :=
  | Ok (a : A)
  | Raise (e : exn).

Arguments Ok {A} a.
Arguments Raise {A} e.

#[global] Instance result_ret : MRet result := λ A a, Ok a.

#[global] Instance result_bind : MBind result := λ A B k r,
  match r with
  | Ok a => k a
  | Raise e => Raise e
  end.

Definition is_ok {A : Type} (r : result A) : Prop := ∃ a, r = Ok a.

(** [[f(x) for x in l]] where [f] may raise. *)
Fixpoint traverse {A B : Type} (f : A → result B) (l : list A) : result (list B) :=
  match l with
  | [] => Ok []
  | x :: l' => y ← f x; ys ← traverse f l'; Ok (y :: ys)
  end.

(** * Python string and list primitives *)

Module Py.

(** [s.startswith(p)] *)
Fixpoint startswith (s p : string) {struct p} : bool :=
  match p with
  | EmptyString => true
  | String a p' =>
      match s with
      | EmptyString => false
      | String b s' => if Ascii.eqb a b then startswith s' p' else false
      end
  end.

(** [s[a:]] *)
Fixpoint drop (n : nat) (s : string) : string :=
  match n, s with
  | O, _ => s
  | S _, EmptyString => EmptyString
  | S n', String _ s' => drop n' s'
  end.

(** [s[a:b]] for [0 <= a], [0 <= b]. *)
Definition slice (s : string) (a b : nat) : string :=
  String.substring a (b - a) s.

(** [sep.join(l)] *)
Definition join (sep : string) (l : list string) : string :=
  String.concat sep l.

(** [s.replace(old, new)] for a non-empty [old]: occurrences are found
    left to right and do not overlap.  [skip] counts the characters of
    the occurrence just replaced that are still to be passed over. *)
Fixpoint replace_aux (old new : string) (skip : nat) (s : string) : string :=
  match s with
  | EmptyString => EmptyString
  | String c s' =>
      match skip with
      | S k => replace_aux old new k s'
      | O =>
          if startswith s old
          then new +:+ replace_aux old new (String.length old - 1) s'
          else String c (replace_aux old new 0 s')
      end
  end.

Definition replace (s old new : string) : string := replace_aux old new 0 s.

(** [s.replace(old, new, 1)] for a non-empty [old]. *)
Fixpoint replace_first (s old new : string) : string :=
  match s with
  | EmptyString => EmptyString
  | String c s' =>
      if startswith s old then new +:+ drop (String.length old) s
      else String c (replace_first s' old new)
  end.

(** [s.split(sep)] for a non-empty [sep]; [cur] is the piece being read. *)
Fixpoint split_aux (sep : string) (skip : nat) (cur : string) (s : string)
  : list string :=
  match s with
  | EmptyString => [cur]
  | String c s' =>
      match skip with
      | S k => split_aux sep k cur s'
      | O =>
          if startswith s sep
          then cur :: split_aux sep (String.length sep - 1) EmptyString s'
          else split_aux sep 0 (cur +:+ String c EmptyString) s'
      end
  end.

Definition split (s sep : string) : list string := split_aux sep 0 EmptyString s.

(** [s.split(sep, 1)]: at most one cut, at the first occurrence. *)
Fixpoint split1_aux (sep : string) (cur : string) (s : string) : list string :=
  match s with
  | EmptyString => [cur]
  | String c s' =>
      if startswith s sep
      then [cur; drop (String.length sep) s]
      else split1_aux sep (cur +:+ String c EmptyString) s'
  end.

Definition split1 (s sep : string) : list string := split1_aux sep EmptyString s.

(** Code points below 256 for which [str.isspace] holds. *)
Definition isspace (c : ascii) : bool :=
  let n := nat_of_ascii c in
  (((9 <=? n) && (n <=? 13)) || ((28 <=? n) && (n <=? 32))
   || (n =? 133) || (n =? 160)).

Fixpoint lstrip (s : string) : string :=
  match s with
  | EmptyString => EmptyString
  | String c s' => if isspace c then lstrip s' else s
  end.

Fixpoint rstrip (s : string) : string :=
  match s with
  | EmptyString => EmptyString
  | String c s' =>
      match rstrip s' with
      | EmptyString => if isspace c then EmptyString else String c EmptyString
      | r => String c r
      end
  end.

(** [s.strip()] *)
Definition strip (s : string) : string := rstrip (lstrip s).

(** [str.lower] on one code point below 256: A-Z, and the upper-case
    letters of Latin-1 (U+00C0-U+00DE without the multiplication sign). *)
Definition lower_char (c : ascii) : ascii :=
  let n := nat_of_ascii c in
  if (((65 <=? n) && (n <=? 90))
      || ((192 <=? n) && (n <=? 222) && negb (n =? 215)))
  then ascii_of_nat (n + 32) else c.

(** [s.lower()] *)
Fixpoint lower (s : string) : string :=
  match s with
  | EmptyString => EmptyString
  | String c s' => String (lower_char c) (lower s')
  end.

(** [re.compile(re.escape(pat)).search(s)]: the escaped pattern matches
    [pat] literally; the result is the start of the leftmost match. *)
Fixpoint search_from (pat : string) (i : nat) (s : string) : option nat :=
  if startswith s pat then Some i
  else match s with
       | EmptyString => None
       | String _ s' => search_from pat (S i) s'
       end.

Definition search (pat s : string) : option nat := search_from pat 0 s.

End Py.

(** [a, b = l]: unpacking into two names raises [ValueError] unless [l]
    has exactly two elements. *)
Definition unpack2 {A : Type} (l : list A) : result (A * A) :=
  match l with
  | [a; b] => Ok (a, b)
  | _ => Raise ValueError
  end.

(** * The label remapper *)

Module Remap.

(** The body of the loop of [replace_token_labels] for one tag. *)
Definition replace_tag (expanded_labels : gmap string string) (tag : string)
  : result string :=
  if Py.startswith tag "B-" || Py.startswith tag "I-" then
    '(prefix, label) ← unpack2 (Py.split1 tag "-");
    match expanded_labels !! label with
    | Some new_label => Ok (prefix +:+ "-" +:+ new_label)
    | None => Ok tag
    end
  else Ok tag.

Definition replace_token_labels
    (id2label : gmap Z string) (expanded_labels : gmap string string)
  : result (gmap Z string) :=
  map_fold
    (λ idx tag acc,
       replaced_id2label ← acc;
       new_tag ← replace_tag expanded_labels tag;
       Ok (<[idx := new_tag]> replaced_id2label))
    (Ok ∅) id2label.

(** The tag written for [tag], as a function. *)
Definition new_tag (e : gmap string string) (tag : string) : string :=
  match replace_tag e tag with
  | Ok t => t
  | Raise _ => tag
  end.

(** A tag carries a BIO prefix. *)
Definition has_bio_prefix (tag : string) : Prop :=
  ∃ ty, tag = "B-" +:+ ty ∨ tag = "I-" +:+ ty.

(** The mappings of Example 4. *)
Definition example_id2label : gmap Z string :=
  <[0%Z := "O"]> (<[1%Z := "B-PER"]> (<[2%Z := "I-PER"]> ∅)).

Definition example_expanded : gmap string string := <["PER" := "PERSON"]> ∅.

Definition example_replaced : gmap Z string :=
  <[0%Z := "O"]> (<[1%Z := "B-PERSON"]> (<[2%Z := "I-PERSON"]> ∅)).

End Remap.

(** * Documents, spans and the consumed toolkit interface *)

(** A token of a tokenized document: the offset [tok_idx] of its first
    character in the text of the document, and its text. *)
Record token : Type := Token { tok_idx : nat; tok_text : string }.

(** A tokenized document: [doc_tokens] is what iterating over the document
    yields, [doc_text] is [doc.text]. *)
Record Doc : Type := MkDoc { doc_tokens : list token; doc_text : string }.

(** [(start_offset, end_offset, entity_type)], half-open, in characters. *)
Definition span : Type := nat * nat * string.

Definition span_label (s : span) : string := s.2.

(** The functions of the NLP toolkit that the converters call.  The
    converters are written against this interface; [Spacy.toolkit] below
    is the instance used for the concrete examples. *)
Class NlpToolkit : Type := {
  (** [Doc(Vocab(), words=words)] *)
  make_doc : list string → Doc;
  (** [spacy.blank("en")(text)] *)
  nlp : string → Doc;
  iob_to_biluo : list string → result (list string);
  biluo_tags_to_offsets : Doc → list string → result (list span);
  offsets_to_biluo_tags : Doc → list span → result (list string);
  biluo_to_iob : list string → list string
}.

(** * The dataset container

    The converters receive and return a [datasets.Dataset].  The container
    is not part of this repository; the definitions below follow the
    behaviour of the methods the converters call.  A dataset is the list
    of its rows; a row keeps the two columns the converters read and
    write. *)

(** [Dataset.map] without [batched]: the function is applied row by row;
    an exception raised for one row ends the whole call.  On a dataset
    without rows the function is not called. *)
Definition dataset_map {A B : Type} (f : A → result B) (rows : list A)
  : result (list B) :=
  traverse f rows.

(** The number of rows handed to the function per call by a batched
    [Dataset.map] (the default of its [batch_size] argument). *)
Definition batch_size : nat := 1000.

(** Consecutive batches of at most [size] rows; [cur] is the batch being
    filled and [room] the number of rows it can still take. *)
Fixpoint batches_aux {A : Type} (size room : nat) (cur : list A) (rows : list A)
  : list (list A) :=
  match rows with
  | [] => match cur with [] => [] | _ :: _ => [cur] end
  | x :: rows' =>
      match room with
      | O => cur :: batches_aux size (size - 1) [x] rows'
      | S room' => batches_aux size room' (cur ++ [x]) rows'
      end
  end.

Definition batches {A : Type} (size : nat) (rows : list A) : list (list A) :=
  batches_aux size size [] rows.

(** The integers that a column of 64-bit integers can hold. *)
Definition int64 (z : Z) : bool := (- 2 ^ 63 <=? z)%Z && (z <? 2 ^ 63)%Z.

(** What the container does with the columns that the function of a
    batched map returns for a batch of [n] rows.  The function of the
    backward converter returns the batch it was given with two columns
    replaced, so the columns it does not replace (the label column among
    them) keep [n] entries; [out] are the rows of the replaced columns.
    The rows of this model list the columns in the order of the dataset,
    the token column first:
    - a batch whose first column has no entry is not written at all;
    - every column is then converted to an array: [writable] tells
      whether the entries of a row can be stored, and an integer
      outside the 64-bit range raises [OverflowError];
    - the arrays of a batch must have the same length: when the
      function returns fewer or more rows than it received, the batch
      is rejected with [ArrowInvalid]. *)
Definition write_batch {B : Type} (writable : B → bool) (n : nat) (out : list B)
  : result (list B) :=
  match out with
  | [] => Ok []
  | _ :: _ =>
      if negb (forallb writable out) then Raise OverflowError
      else if decide (length out = n) then Ok out
      else Raise ArrowInvalid
  end.

(** [Dataset.map] with [batched=True].  [f] receives the rows of one
    batch and returns the new columns, here as a list of output rows;
    the batches are processed and written one after the other. *)
Definition dataset_map_batched {A B : Type} (writable : B → bool)
    (f : list A → result (list B)) (rows : list A) : result (list B) :=
  outs ← traverse
    (λ batch, out ← f batch; write_batch writable (length batch) out)
    (batches batch_size rows);
  Ok (concat outs).

(** [Dataset.rename_column] applied to the column that the mapped
    function adds.  A map that writes no row (the dataset has no row: the
    function is never called; or every batch of a batched map is left
    out) returns a dataset with the columns it was given: the column to
    rename does not exist and [rename_column] raises [ValueError]. *)
Definition rename_added_column {B : Type} (written : list B) : result (list B) :=
  match written with
  | [] => Raise ValueError
  | _ :: _ => Ok written
  end.

(** [Dataset.filter]. *)
Definition dataset_filter {A : Type} (keep : A → bool) (rows : list A) : list A :=
  List.filter keep rows.
(** * The converters *)

Module TokenClassification.

Definition LABEL_SEPARATOR : string := String "010"%char EmptyString.
Definition LABEL2ENTITY_SEPARATOR : string := "->".
Definition ENTITY_SEPARATOR : string := ", ".

(** [label.replace("B-", "").replace("I-", "")] *)
Definition strip_bio (label : string) : string :=
  Py.replace (Py.replace label "B-" "") "I-" "".

(** Lines 31-32 of [token_labels_to_spans]: the set comprehension over
    the values of [id2label], turned into a list, from which ["O"] is
    removed.  The order of a list made from a set is unspecified and the
    list has no duplicates: it is modelled by the set of its elements.
    [list.remove] raises [ValueError] when the element is absent. *)
Definition label_set (id2label : gmap Z string) : gset string :=
  list_to_set (map (λ kv, strip_bio kv.2) (map_to_list id2label)).

Definition label_options (id2label : gmap Z string) : result (gset string) :=
  let options := label_set id2label in
  if decide ("O" ∈ options) then Ok (options ∖ {["O"]}) else Raise ValueError.

(** [d[key]] *)
Definition getitem {K V : Type} `{Countable K} (d : gmap K V) (key : K)
  : result V :=
  match d !! key with
  | Some v => Ok v
  | None => Raise KeyError
  end.

(** [span_labels.setdefault(label, []).append(text)] on a dictionary
    kept in insertion order. *)
Fixpoint setdefault_append (label text : string)
    (span_labels : list (string * list string)) : list (string * list string) :=
  match span_labels with
  | [] => [(label, [text])]
  | (k, v) :: rest =>
      if String.eqb k label then (k, v ++ [text]) :: rest
      else (k, v) :: setdefault_append label text rest
  end.

(** The loop of lines 40-42. *)
Definition group_spans (text : string) (offsets : list span)
  : list (string * list string) :=
  foldl (λ span_labels '(start, end_, label),
           setdefault_append label (Py.slice text start end_) span_labels)
        [] offsets.

(** Lines 45-48. *)
Definition format_label (span_labels : list (string * list string)) : string :=
  let span_labels :=
    map (λ '(k, v), (k, Py.join ENTITY_SEPARATOR v)) span_labels in
  Py.join LABEL_SEPARATOR
    (map (λ '(k, v), k +:+ " " +:+ LABEL2ENTITY_SEPARATOR +:+ " " +:+ v) span_labels).

(** The label-to-id dictionary [{v: k for k, v in id2label.items()}].
    When two ids carry the same tag the comprehension keeps the id
    visited last; [id2label] being a [gmap], the visiting order is that
    of [map_fold]. *)
Definition label2id_of (id2label : gmap Z string) : gmap string Z :=
  map_fold (λ k v acc, <[v := k]> acc) ∅ id2label.

Section Converters.
Context `{T : NlpToolkit}.

(** The inner function [labels_to_spans] of [token_labels_to_spans]
    for one row: returns the new values of the token column and of
    the label column. *)
Definition labels_to_spans (id2label : gmap Z string)
    (example : list string * list Z) : result (string * string) :=
  let '(tokens, labels) := example in
  bio_tags ← traverse (getitem id2label) labels;
  bilou_tags ← iob_to_biluo bio_tags;
  let doc := make_doc tokens in
  offsets ← biluo_tags_to_offsets doc bilou_tags;
  let span_labels := group_spans (doc_text doc) offsets in
  Ok (doc_text doc, format_label span_labels).

Definition token_labels_to_spans (dataset : list (list string * list Z))
    (id2label : gmap Z string)
  : result (list (string * string) * gset string) :=
  label_options ← label_options id2label;
  dataset ← dataset_map (labels_to_spans id2label) dataset;
  dataset ← rename_added_column dataset;
  Ok (dataset, label_options).

(** Lines 87-93: the spans found for the entities of one line. *)
Fixpoint match_entities (text label : string) (entities : list string)
  : list span :=
  match entities with
  | [] => []
  | entity :: rest =>
      match Py.search entity (Py.lower text) with
      | Some start =>
          (start, start + String.length entity, label)
          :: match_entities text label rest
      | None => match_entities text label rest
      end
  end.

(** Lines 84-93: one line of the label string. *)
Definition line_spans (text label_and_entities : string) : result (list span) :=
  '(label, entities) ←
    unpack2 (Py.split label_and_entities LABEL2ENTITY_SEPARATOR);
  let label := Py.strip label in
  let entities :=
    map (λ entity, Py.lower (Py.strip entity))
        (Py.split entities ENTITY_SEPARATOR) in
  Ok (match_entities text label entities).

(** Lines 83-93: the spans of a whole label string. *)
Definition collect_spans (text str_label : string) : result (list span) :=
  per_line ← traverse (line_spans text) (Py.split str_label LABEL_SEPARATOR);
  Ok (concat per_line).

(** Lines 95-102: tokens and BIO tags for one row. *)
Definition align (text : string) (spans : list span)
  : result (list string * list string) :=
  let doc := nlp text in
  match offsets_to_biluo_tags doc spans with
  | Ok biluo => Ok (map tok_text (doc_tokens doc), biluo_to_iob biluo)
  | Raise ValueError => Ok ([], [])
  | Raise e => Raise e
  end.

(** Lines 79-102: the loop over the rows of a batch; a row whose label
    string is empty is skipped. *)
Fixpoint convert_rows (rows : list (string * string))
  : result (list (list string * list string)) :=
  match rows with
  | [] => Ok []
  | (text, str_label) :: rest =>
      if decide (str_label = "") then convert_rows rest
      else
        spans ← collect_spans text str_label;
        row ← align text spans;
        out ← convert_rows rest;
        Ok (row :: out)
  end.

(** The inner function [labels_to_spans] of [spans_to_token_labels]
    for one batch: the new token column and the column of tag ids,
    row by row (both columns are built with one entry per processed
    row). *)
Definition labels_to_spans_batch (label2id : gmap string Z)
    (examples : list (string * string))
  : result (list (list string * list Z)) :=
  rows ← convert_rows examples;
  traverse (λ '(tokens, tags),
              ids ← traverse (getitem label2id) tags;
              Ok (tokens, ids))
           rows.

Definition spans_to_token_labels (dataset : list (string * string))
    (id2label : gmap Z string) : result (list (list string * list Z)) :=
  let label2id := label2id_of id2label in
  dataset ← dataset_map_batched (λ example, forallb int64 example.2)
              (labels_to_spans_batch label2id) dataset;
  dataset ← rename_added_column dataset;
  Ok (dataset_filter (λ example, 0 <? length example.1) dataset).

End Converters.

End TokenClassification.
(** * A model of the toolkit

    The converters import [iob_to_biluo], [biluo_tags_to_offsets],
    [offsets_to_biluo_tags], [biluo_to_iob], [Doc] and the blank English
    pipeline from spaCy.  None of it is part of this repository; the
    definitions below follow the behaviour of those library functions and
    serve as the instance of [NlpToolkit] on which the concrete examples
    are evaluated.  The tokenizer of the blank pipeline
    is not modelled: it is a parameter of the instance. *)

Module Spacy.

(** [Doc(Vocab(), words=words)]: without [spaces], every word is
    followed by one space, the last one included. *)
Fixpoint words_tokens (start : nat) (words : list string) : list token :=
  match words with
  | [] => []
  | w :: ws => Token start w :: words_tokens (start + String.length w + 1) ws
  end.

Definition doc_of_words (words : list string) : Doc :=
  MkDoc (words_tokens 0 words) (String.concat "" (map (λ w, w +:+ " ") words)).

(** A document holds no empty token: the constructor refuses a list of
    words with an empty string ([ValueError], E031). *)
Definition has_empty_token (doc : Doc) : bool :=
  existsb (λ t, String.length (tok_text t) =? 0) (doc_tokens doc).

(** [_consume_ent]: [rest] are the tags after [tag]; returns the tags of
    the entity and how many tags of [rest] it has consumed. *)
Fixpoint count_inside (target_in target_last : string) (tags : list string) : nat :=
  match tags with
  | [] => 0
  | t :: tags' =>
      if String.eqb t target_in || String.eqb t target_last
      then S (count_inside target_in target_last tags')
      else 0
  end.

Definition consume_ent (tag : string) (rest : list string)
  : result (list string * nat) :=
  let target_in := "I" +:+ Py.drop 1 tag in
  let target_last := "L" +:+ Py.drop 1 tag in
  let length := 1 + count_inside target_in target_last rest in
  let label := Py.drop 2 tag in
  if length =? 1 then
    if String.length label =? 0 then Raise ValueError
    else Ok (["U-" +:+ label], 0)
  else
    Ok (["B-" +:+ label] ++ replicate (length - 2) ("I-" +:+ label)
          ++ ["L-" +:+ label], length - 1).

(** [iob_to_biluo]: runs of ["O"] are copied, every other tag starts an
    entity; [skip] counts the tags already consumed by the entity. *)
Fixpoint iob_to_biluo_aux (skip : nat) (tags : list string) : result (list string) :=
  match tags with
  | [] => Ok []
  | tag :: rest =>
      match skip with
      | S k => iob_to_biluo_aux k rest
      | O =>
          if String.eqb tag "O" then
            out ← iob_to_biluo_aux 0 rest; Ok ("O" :: out)
          else
            '(ent, consumed) ← consume_ent tag rest;
            out ← iob_to_biluo_aux consumed rest;
            Ok (ent ++ out)
      end
  end.

Definition iob_to_biluo (tags : list string) : result (list string) :=
  iob_to_biluo_aux 0 tags.

(** [tags_to_entities]: [(label, first token, last token)], the last
    token included. *)
Fixpoint tags_to_entities_aux (i : nat) (start : option nat) (tags : list string)
  : result (list (string * nat * nat)) :=
  match tags with
  | [] => Ok []
  | tag :: rest =>
      if Py.startswith tag "-" then
        match start with
        | Some _ => tags_to_entities_aux (S i) None rest
        | None =>
            ents ← tags_to_entities_aux (S i) None rest; Ok (("", i, i) :: ents)
        end
      else if Py.startswith tag "O" then tags_to_entities_aux (S i) start rest
      else if Py.startswith tag "I" then
        match start with
        | None => Raise ValueError
        | Some _ => tags_to_entities_aux (S i) start rest
        end
      else if Py.startswith tag "U" then
        ents ← tags_to_entities_aux (S i) start rest;
        Ok ((Py.drop 2 tag, i, i) :: ents)
      else if Py.startswith tag "B" then tags_to_entities_aux (S i) (Some i) rest
      else if Py.startswith tag "L" then
        match start with
        | None => Raise ValueError
        | Some s =>
            ents ← tags_to_entities_aux (S i) None rest;
            Ok ((Py.drop 2 tag, s, i) :: ents)
        end
      else Raise ValueError
  end.

Definition tags_to_entities (tags : list string) : result (list (string * nat * nat)) :=
  tags_to_entities_aux 0 None tags.

(** [Span(doc, start, end + 1, label=label)] and its character offsets. *)
Definition span_of_entity (doc : Doc) (ent : string * nat * nat) : result span :=
  let '(label, start, end_) := ent in
  match doc_tokens doc !! start, doc_tokens doc !! end_ with
  | Some first, Some last =>
      Ok (tok_idx first, tok_idx last + String.length (tok_text last), label)
  | _, _ => Raise IndexError
  end.

Definition biluo_tags_to_offsets (doc : Doc) (tags : list string)
  : result (list span) :=
  ents ← tags_to_entities tags;
  traverse (span_of_entity doc) ents.

(** [starts.get(c)] and [ends.get(c)] for the dictionaries
    [{token.idx: token.i}] and [{token.idx + len(token): token.i}]:
    a later token replaces an earlier one with the same key. *)
Fixpoint last_index (p : token → bool) (i : nat) (tokens : list token) : option nat :=
  match tokens with
  | [] => None
  | t :: tokens' =>
      match last_index p (S i) tokens' with
      | Some j => Some j
      | None => if p t then Some i else None
      end
  end.

Definition starts_get (tokens : list token) (c : nat) : option nat :=
  last_index (λ t, tok_idx t =? c) 0 tokens.

Definition ends_get (tokens : list token) (c : nat) : option nat :=
  last_index (λ t, tok_idx t + String.length (tok_text t) =? c) 0 tokens.

(** [c in range(a, b)] *)
Definition in_range (c a b : nat) : bool := (a <=? c) && (c <? b).

(** Some character of [range(a, b)] lies in one of the [spans]. *)
Definition range_hits (spans : list span) (a b : nat) : bool :=
  existsb (λ c, existsb (λ '(s, e, _), in_range c s e) spans) (seq a (b - a)).

(** [for i in range(a, b): biluo[i] = x] *)
Definition set_range (biluo : list string) (a b : nat) (x : string) : list string :=
  foldl (λ acc i, <[i := x]> acc) biluo (seq a (b - a)).

(** One round of the first loop of [offsets_to_biluo_tags]; [seen] are
    the labelled entities so far (the keys of [tokens_in_ents] are the
    characters they cover). *)
Definition tag_entity (tokens : list token) (st : list string * list span)
    (entity : span) : result (list string * list span) :=
  let '(biluo, seen) := st in
  let '(start_char, end_char, label) := entity in
  if String.eqb label "" then
    Ok (foldl (λ acc '(i, t),
                 if in_range (tok_idx t) start_char end_char
                 then <[i := "O"]> acc else acc)
              biluo (imap (λ i t, (i, t)) tokens), seen)
  else if range_hits seen start_char end_char then Raise ValueError
  else
    let seen := entity :: seen in
    match starts_get tokens start_char, ends_get tokens end_char with
    | Some start_token, Some end_token =>
        if start_token =? end_token then
          Ok (<[start_token := "U-" +:+ label]> biluo, seen)
        else
          Ok (<[end_token := "L-" +:+ label]>
                (set_range (<[start_token := "B-" +:+ label]> biluo)
                           (S start_token) end_token ("I-" +:+ label)),
              seen)
    | _, _ => Ok (biluo, seen)
    end.

Fixpoint tag_entities (tokens : list token) (st : list string * list span)
    (entities : list span) : result (list string * list span) :=
  match entities with
  | [] => Ok st
  | entity :: rest => st' ← tag_entity tokens st entity; tag_entities tokens st' rest
  end.

(** [offsets_to_biluo_tags] with the default [missing="O"]: a token
    none of whose characters lies in an entity becomes ["O"]; a token
    that an entity covers without ending on token boundaries keeps
    ["-"]. *)
Definition offsets_to_biluo_tags (doc : Doc) (entities : list span)
  : result (list string) :=
  let tokens := doc_tokens doc in
  '(biluo, _) ← tag_entities tokens (replicate (length tokens) "-", []) entities;
  Ok (zip_with
        (λ t tag,
           if range_hits entities (tok_idx t) (tok_idx t + String.length (tok_text t))
           then tag else "O")
        tokens biluo).

(** [biluo_to_iob]: [tag.replace("U-", "B-", 1).replace("L-", "I-", 1)]. *)
Definition biluo_to_iob (tags : list string) : list string :=
  map (λ tag, Py.replace_first (Py.replace_first tag "U-" "B-") "L-" "I-") tags.

(** What the blank English pipeline does on a text made of words that
    it does not split further, separated by single spaces: one token
    per word.  [i] is the offset of the next character, [start] that of
    the word being read and [cur] its characters so far. *)
Fixpoint words_of_text (i start : nat) (cur : string) (s : string) : list token :=
  match s with
  | EmptyString =>
      match cur with
      | EmptyString => []
      | _ => [Token start cur]
      end
  | String c s' =>
      if Ascii.eqb c " " then
        match cur with
        | EmptyString => words_of_text (S i) (S i) EmptyString s'
        | _ => Token start cur :: words_of_text (S i) (S i) EmptyString s'
        end
      else words_of_text (S i) start (cur +:+ String c EmptyString) s'
  end.

Definition whitespace_tokenizer (text : string) : list token :=
  words_of_text 0 0 EmptyString text.

End Spacy.

(** The instance: spaCy with [tokenizer] as the blank pipeline.  The
    interface has a total [make_doc]; the [ValueError] with which the
    constructor refuses an empty word is raised here by the first use
    of the document made from the words, which in the forward converter
    is the statement that follows the construction (lines 37 and 38). *)
Definition spacy_toolkit (tokenizer : string → list token) : NlpToolkit := {|
  make_doc := Spacy.doc_of_words;
  nlp := λ text, MkDoc (tokenizer text) text;
  iob_to_biluo := Spacy.iob_to_biluo;
  biluo_tags_to_offsets := λ doc tags,
    if Spacy.has_empty_token doc then Raise ValueError
    else Spacy.biluo_tags_to_offsets doc tags;
  offsets_to_biluo_tags := Spacy.offsets_to_biluo_tags;
  biluo_to_iob := Spacy.biluo_to_iob
|}.
(** * Vocabulary of the specification *)

Module SpecDefs.
Import TokenClassification.

(** The elements of [l] in the order of their first occurrence. *)
Fixpoint first_seen (l : list string) : list string :=
  match l with
  | [] => []
  | x :: l' => x :: List.filter (λ y, negb (String.eqb y x)) (first_seen l')
  end.

(** The texts of the spans of type [ty], in the order of the spans. *)
Definition span_texts (text ty : string) (offsets : list span) : list string :=
  map (λ s : span, Py.slice text s.1.1 s.1.2)
      (List.filter (λ s : span, String.eqb (span_label s) ty) offsets).

(** The line of the label string for the entity type [ty]. *)
Definition label_line (text : string) (offsets : list span) (ty : string) : string :=
  ty +:+ " -> " +:+ Py.join ", " (span_texts text ty offsets).



(** [pat in s] *)
Definition contains (s pat : string) : bool :=
  match Py.search pat s with
  | Some _ => true
  | None => false
  end.





(** The text of a document made from [words]. *)
Definition words_text (words : list string) : string :=
  String.concat "" (map (λ w, w +:+ " ") words).





(** A tag with its BIO prefix removed: the entity type of the tag. *)
Definition entity_type (tag : string) : string :=
  if Py.startswith tag "B-" || Py.startswith tag "I-" then Py.drop 2 tag else tag.

(** The vocabulary [O, B-PER, I-PER, B-LOC, I-LOC] of the examples. *)
Definition conll_id2label : gmap Z string :=
  <[0%Z := "O"]> (<[1%Z := "B-PER"]> (<[2%Z := "I-PER"]>
    (<[3%Z := "B-LOC"]> (<[4%Z := "I-LOC"]> ∅)))).

(** A vocabulary with an entity type that contains a hyphen. *)
Definition scifi_id2label : gmap Z string :=
  <[0%Z := "O"]> (<[1%Z := "B-SCI-FI"]> (<[2%Z := "I-SCI-FI"]> ∅)).



Definition spacy : NlpToolkit := spacy_toolkit Spacy.whitespace_tokenizer.



(** Rows used in the examples. *)
Definition berlin_text : string := "John lives in Berlin ".

Definition row_empty_label : string * string := (berlin_text, "").
Definition row_al : string * string := ("Al ", "PER -> Al").
Definition row_john_paris : string * string :=
  (berlin_text, "PER -> John, Paris").

End SpecDefs.

(** * The question-answering helpers

    A shallow embedding of
    [src/ai_dataset_generator/dataset_transformations/question_answering.py].
    A row keeps the columns the helpers read and write; a column that a
    row may lack is an [option]. *)

Module QuestionAnswering.

(** [s.find(sub, start)] for [0 <= start]: the lowest index from [start]
    on at which [sub] occurs, [-1] when there is none or when [start]
    lies beyond the end of [s]. *)
Definition find (s sub : string) (start : nat) : Z :=
  if String.length s <? start then (-1)%Z
  else match Py.search sub (Py.drop start s) with
       | Some i => Z.of_nat (start + i)
       | None => (-1)%Z
       end.

(** The messages passed to [logger.info]. *)
Inductive log_message : Type :=
  | AnswerNotInContext (context answer : string)
  | AnswerMoreThanOnce.

(** A flat row: [answer_start] is [None] while the row has no such
    column. *)
Record flat_example : Type := FlatExample {
  context : string;
  answers : string;
  answer_start : option Z
}.

(** The value of the [answers] column after [unify_answers]. *)
Record nested_answer : Type := NestedAnswer {
  answer_text : string;
  answer_start_index : Z
}.

(** The inner function [preprocess] of [preprocess_squad_format], on the
    value of the column [answers.text] renamed to [answers]: the last
    text of a non-empty list ([list.pop]), the empty string otherwise. *)
Definition preprocess (answers_text : list string) : string :=
  match answers_text with
  | [] => ""
  | _ :: _ => List.last answers_text ""
  end.

(** [calculate_answer_start]: returns the row with its [answer_start]
    column set, and the messages logged. *)
Definition calculate_answer_start (example : flat_example)
  : flat_example * list log_message :=
  let answer_start := find (context example) (answers example) 0 in
  let '(answer_start, logged) :=
    if (answer_start <? 0)%Z then
      ((-1)%Z, [AnswerNotInContext (context example) (answers example)])
    else
      let second_answer_start :=
        find (context example) (answers example) (Z.to_nat (answer_start + 1)) in
      if (second_answer_start >=? 0)%Z then ((-1)%Z, [AnswerMoreThanOnce])
      else (answer_start, [])
  in
  (FlatExample (context example) (answers example) (Some answer_start), logged).

(** The inner function [unify_answers] of [postprocess_squad_format]:
    reading a missing [answer_start] column raises [KeyError]. *)
Definition unify_answers (example : flat_example) : result (string * nested_answer) :=
  match answer_start example with
  | Some start => Ok (context example, NestedAnswer (answers example) start)
  | None => Raise KeyError
  end.

(** One row through [postprocess_squad_format]: [calculate_answer_start]
    when [add_answer_start] is set, then [unify_answers]. *)
Definition postprocess_example (add_answer_start : bool) (example : flat_example)
  : result (string * nested_answer) * list log_message :=
  let '(example, logged) :=
    if add_answer_start then calculate_answer_start example else (example, []) in
  (unify_answers example, logged).

(** [sub] occurs in [s] at offset [i]. *)
Definition occurs_in (sub s : string) (i : nat) : Prop :=
  i + String.length sub ≤ String.length s ∧
  Py.slice s i (i + String.length sub) = sub.

(** [sub] occurs in [s] at offset [i] and nowhere else. *)
Definition only_occurrence (sub s : string) (i : nat) : Prop :=
  occurs_in sub s i ∧ ∀ j, occurs_in sub s j → j = i.

End QuestionAnswering.

(** * The backward converter, row by row *)

Module RowWise.
Import TokenClassification.



End RowWise.

(** * The wire format between the two converters *)

Module WireFormat.

(** An entity type that the label lines carry unchanged: no hyphen, no
    line break, no surrounding blanks. *)
Definition plain_type (ty : string) : Prop :=
  SpecDefs.contains ty "-" = false ∧
  SpecDefs.contains ty TokenClassification.LABEL_SEPARATOR = false ∧
  Py.strip ty = ty.

(** A span text that the label lines carry unchanged: no line break, no
    [>], no comma, no surrounding blanks. *)
Definition plain_text (t : string) : Prop :=
  SpecDefs.contains t TokenClassification.LABEL_SEPARATOR = false ∧
  SpecDefs.contains t ">" = false ∧
  SpecDefs.contains t "," = false ∧
  Py.strip t = t.

(** The entries of [span_labels] are plain. *)
Definition plain_entry (entry : string * list string) : Prop :=
  plain_type entry.1 ∧ entry.2 ≠ [] ∧ Forall plain_text entry.2.

End WireFormat.
(** * Properties of the label remapper *)

Section RemapFacts.
Import Remap.

Lemma startswith_app s p :
  Py.startswith s p = true → s = p +:+ Py.drop (String.length p) s.
Proof.
  revert s. induction p as [|a p IH]; intros s; [done|].
  destruct s as [|b s]; simpl; [discriminate|].
  destruct (Ascii.eqb_spec a b) as [->|]; [|discriminate].
  intros H. f_equal. by apply IH.
Qed.

Lemma startswith_B tag :
  Py.startswith tag "B-" = true → ∃ ty, tag = "B-" +:+ ty.
Proof. intros H. eexists. by apply startswith_app in H. Qed.

Lemma startswith_I tag :
  Py.startswith tag "I-" = true → ∃ ty, tag = "I-" +:+ ty.
Proof. intros H. eexists. by apply startswith_app in H. Qed.

Lemma startswith_false tag :
  Py.startswith tag "B-" || Py.startswith tag "I-" = false →
  ¬ has_bio_prefix tag.
Proof.
  intros H [ty [->| ->]]; simpl in H; discriminate.
Qed.

Lemma replace_tag_B e ty :
  replace_tag e ("B-" +:+ ty) =
  Ok (match e !! ty with Some ty' => "B-" +:+ ty' | None => "B-" +:+ ty end).
Proof. unfold replace_tag. simpl. by destruct (e !! ty). Qed.

Lemma replace_tag_I e ty :
  replace_tag e ("I-" +:+ ty) =
  Ok (match e !! ty with Some ty' => "I-" +:+ ty' | None => "I-" +:+ ty end).
Proof. unfold replace_tag. simpl. by destruct (e !! ty). Qed.

Lemma replace_tag_other e tag :
  ¬ has_bio_prefix tag → replace_tag e tag = Ok tag.
Proof.
  intros Hno. unfold replace_tag.
  destruct (Py.startswith tag "B-") eqn:HB.
  { destruct (startswith_B _ HB) as [ty ->]. destruct Hno. by exists ty; left. }
  destruct (Py.startswith tag "I-") eqn:HI; [|done].
  destruct (startswith_I _ HI) as [ty ->]. destruct Hno. by exists ty; right.
Qed.

Lemma replace_tag_total e tag : replace_tag e tag = Ok (new_tag e tag).
Proof.
  unfold new_tag.
  destruct (Py.startswith tag "B-") eqn:HB.
  { destruct (startswith_B _ HB) as [ty ->]. by rewrite replace_tag_B. }
  destruct (Py.startswith tag "I-") eqn:HI.
  { destruct (startswith_I _ HI) as [ty ->]. by rewrite replace_tag_I. }
  rewrite replace_tag_other; [done|].
  apply startswith_false. by rewrite HB, HI.
Qed.

Lemma replace_token_labels_fmap (m : gmap Z string) e :
  replace_token_labels m e = Ok (new_tag e <$> m).
Proof.
  unfold replace_token_labels.
  apply (map_fold_weak_ind (λ r m, r = Ok (new_tag e <$> m))).
  - by rewrite fmap_empty.
  - intros idx tag m' r _ ->. simpl.
    rewrite replace_tag_total. simpl. by rewrite fmap_insert.
Qed.

Lemma new_tag_prefixed e p ty :
  p = "B" ∨ p = "I" →
  new_tag e (p +:+ "-" +:+ ty) =
  match e !! ty with Some ty' => p +:+ "-" +:+ ty' | None => p +:+ "-" +:+ ty end.
Proof.
  unfold new_tag. intros [-> | ->].
  - change ("B" +:+ "-" +:+ ty) with ("B-" +:+ ty). by rewrite replace_tag_B.
  - change ("I" +:+ "-" +:+ ty) with ("I-" +:+ ty). by rewrite replace_tag_I.
Qed.

Lemma new_tag_other e tag : ¬ has_bio_prefix tag → new_tag e tag = tag.
Proof. intros H. unfold new_tag. by rewrite replace_tag_other. Qed.

Lemma new_tag_empty tag : new_tag ∅ tag = tag.
Proof.
  unfold new_tag. rewrite replace_tag_total. unfold new_tag.
  destruct (Py.startswith tag "B-") eqn:HB.
  { destruct (startswith_B _ HB) as [ty ->]. by rewrite replace_tag_B. }
  destruct (Py.startswith tag "I-") eqn:HI.
  { destruct (startswith_I _ HI) as [ty ->]. by rewrite replace_tag_I. }
  rewrite replace_tag_other; [done|].
  apply startswith_false. by rewrite HB, HI.
Qed.

(** C7.  [replace_token_labels] never raises and returns a dictionary
    with the keys of [id2label] in which a tag [B-ty] or [I-ty] whose
    type [ty] is a key of the expansion map has become the same prefix
    followed by the mapped type, while a prefixed tag whose type is not
    a key, the outside label [O] and every tag without a BIO prefix are
    kept as they are.  On Example 4 it returns
    [{0: O, 1: B-PERSON, 2: I-PERSON}]. *)
Theorem replace_token_labels_contract :
  (∀ (id2label : gmap Z string) (expanded_labels : gmap string string),
     ∃ r : gmap Z string,
       replace_token_labels id2label expanded_labels = Ok r ∧
       dom r = dom id2label ∧
       ∀ idx tag, id2label !! idx = Some tag →
         (∀ p ty ty', p = "B" ∨ p = "I" → tag = p +:+ "-" +:+ ty →
            expanded_labels !! ty = Some ty' →
            r !! idx = Some (p +:+ "-" +:+ ty')) ∧
         (∀ p ty, p = "B" ∨ p = "I" → tag = p +:+ "-" +:+ ty →
            expanded_labels !! ty = None → r !! idx = Some tag) ∧
         (tag = "O" → r !! idx = Some "O") ∧
         (¬ has_bio_prefix tag → r !! idx = Some tag)) ∧
  replace_token_labels example_id2label example_expanded = Ok example_replaced.
Proof.
  split; [|by vm_compute].
  intros m e. exists (new_tag e <$> m).
  split; [apply replace_token_labels_fmap|].
  split; [apply dom_fmap_L|].
  intros idx tag Hidx. rewrite lookup_fmap, Hidx.
  change (new_tag e <$> Some tag) with (Some (new_tag e tag)).
  repeat split.
  - intros p ty ty' Hp -> Hty. by rewrite new_tag_prefixed, Hty.
  - intros p ty Hp -> Hty. by rewrite new_tag_prefixed, Hty.
  - intros ->. done.
  - intros Hno. by rewrite new_tag_other.
Qed.

Lemma replace_token_labels_contract_witness :
  ∃ r : gmap Z string,
    replace_token_labels example_id2label example_expanded = Ok r ∧
    r !! 1%Z = Some "B-PERSON" ∧ r !! 0%Z = Some "O".
Proof.
  destruct (proj1 replace_token_labels_contract
              example_id2label example_expanded) as (r & Hr & _ & H).
  exists r. split; [exact Hr|]. split.
  - destruct (H 1%Z "B-PER" eq_refl) as (H1 & _).
    apply (H1 "B" "PER" "PERSON"); [by left | reflexivity | reflexivity].
  - destruct (H 0%Z "O" eq_refl) as (_ & _ & H1 & _).
    apply H1. reflexivity.
Defined.

(** C8.  A label whose entity type is not a key of the expansion map is
    left unchanged by [replace_token_labels], also when the function is
    applied to its own result; and with the empty expansion map a second
    application returns what the first one returned. *)
Theorem replace_token_labels_idempotent :
  (∀ (m : gmap Z string) (e : gmap string string),
     ∃ r r' : gmap Z string,
       replace_token_labels m e = Ok r ∧
       replace_token_labels r e = Ok r' ∧
       ∀ idx tag, m !! idx = Some tag →
         (∀ ty, tag = "B-" +:+ ty ∨ tag = "I-" +:+ ty → e !! ty = None) →
         r !! idx = Some tag ∧ r' !! idx = Some tag) ∧
  (∀ m : gmap Z string,
     (r ← replace_token_labels m ∅; replace_token_labels r ∅) =
     replace_token_labels m ∅).
Proof.
  assert (Hkeep : ∀ e tag,
    (∀ ty, tag = "B-" +:+ ty ∨ tag = "I-" +:+ ty → e !! ty = None) →
    new_tag e tag = tag).
  { intros e tag Hty.
    destruct (Py.startswith tag "B-") eqn:HB.
    { destruct (startswith_B _ HB) as [ty ->].
      unfold new_tag. rewrite replace_tag_B.
      by rewrite (Hty ty) by (by left). }
    destruct (Py.startswith tag "I-") eqn:HI.
    { destruct (startswith_I _ HI) as [ty ->].
      unfold new_tag. rewrite replace_tag_I.
      by rewrite (Hty ty) by (by right). }
    apply new_tag_other, startswith_false. by rewrite HB, HI. }
  split.
  - intros m e. exists (new_tag e <$> m), (new_tag e <$> (new_tag e <$> m)).
    split; [apply replace_token_labels_fmap|].
    split; [apply replace_token_labels_fmap|].
    intros idx tag Hidx Hty.
    rewrite !lookup_fmap, Hidx. simpl. by rewrite !Hkeep.
  - intros m. rewrite !replace_token_labels_fmap. simpl.
    rewrite replace_token_labels_fmap. f_equal.
    apply map_eq. intros i. rewrite !lookup_fmap.
    destruct (m !! i); simpl; [|done]. by rewrite !new_tag_empty.
Qed.

Lemma replace_token_labels_idempotent_witness :
  ∃ r r' : gmap Z string,
    replace_token_labels example_id2label ∅ = Ok r ∧
    replace_token_labels r ∅ = Ok r' ∧
    r !! 1%Z = Some "B-PER" ∧ r' !! 1%Z = Some "B-PER".
Proof.
  destruct (proj1 replace_token_labels_idempotent example_id2label ∅)
    as (r & r' & Hr & Hr' & H).
  exists r, r'. split; [exact Hr|]. split; [exact Hr'|].
  apply (H 1%Z "B-PER"); [reflexivity|].
  intros ty _. apply lookup_empty.
Defined.

End RemapFacts.

(** * The label options of the forward converter *)

Section LabelOptions.
Import TokenClassification SpecDefs.

Lemma elem_of_label_set (id2label : gmap Z string) (ty : string) :
  ty ∈ label_set id2label ↔
  ∃ idx tag, id2label !! idx = Some tag ∧ strip_bio tag = ty.
Proof.
  unfold label_set. rewrite elem_of_list_to_set, list_elem_of_fmap.
  split.
  - intros ([idx tag] & -> & Hin). apply elem_of_map_to_list in Hin. eauto.
  - intros (idx & tag & Hin & <-). exists (idx, tag).
    split; [done|]. by apply elem_of_map_to_list.
Qed.


(** On the vocabulary of the examples the options are [PER] and [LOC]. *)
Lemma label_options_conll :
  label_options conll_id2label = Ok ({["PER"]} ∪ {["LOC"]}).
Proof. by vm_compute. Qed.

(** C9.  For the vocabulary [O, B-SCI-FI, I-SCI-FI] the forward
    converter offers the label option [SCFI]: the comprehension removes
    every occurrence of [I-], also the one inside the entity type.  The
    entity type of the tags is [SCI-FI], and that is also the type the
    label line of an example carries. *)
Theorem label_options_inner_hyphen :
  @token_labels_to_spans spacy [(["Dune"], [1%Z])] scifi_id2label
    = Ok ([("Dune ", "SCI-FI -> Dune")], {["SCFI"]}) ∧
  entity_type "B-SCI-FI" = "SCI-FI" ∧
  "SCI-FI" ∉ ({["SCFI"]} : gset string).
Proof.
  split; [by vm_compute|]. split; [done|].
  rewrite elem_of_singleton. discriminate.
Qed.



End LabelOptions.

(** * The label string of the forward converter *)

Section ForwardFacts.
Import TokenClassification SpecDefs.

Lemma eqb_string_true (a b : string) : String.eqb a b = true ↔ a = b.
Proof. apply String.eqb_eq. Qed.

Lemma eqb_string_false (a b : string) : String.eqb a b = false ↔ a ≠ b.
Proof. apply String.eqb_neq. Qed.

Lemma first_seen_elem (l : list string) (x : string) :
  x ∈ first_seen l ↔ x ∈ l.
Proof.
  induction l as [|a l IH]; simpl; [done|].
  rewrite !elem_of_cons, list_elem_of_In, List.filter_In, <- list_elem_of_In, IH.
  rewrite negb_true_iff, eqb_string_false.
  destruct (decide (x = a)); naive_solver.
Qed.

Lemma first_seen_snoc (l : list string) (x : string) :
  first_seen (l ++ [x]) =
  if decide (x ∈ l) then first_seen l else first_seen l ++ [x].
Proof.
  induction l as [|a l IH]; simpl.
  { destruct (decide (x ∈ [])) as [H|]; [by apply elem_of_nil in H|done]. }
  rewrite IH.
  destruct (decide (x ∈ l)) as [Hin|Hin].
  - rewrite decide_True by (by right). done.
  - rewrite List.filter_app. simpl.
    destruct (String.eqb_spec x a) as [->|Hne]; simpl.
    + rewrite decide_True by (by left). by rewrite app_nil_r.
    + rewrite decide_False; [done|].
      rewrite elem_of_cons. naive_solver.
Qed.

Lemma span_texts_snoc text ty offsets (s : span) :
  span_texts text ty (offsets ++ [s]) =
  span_texts text ty offsets ++
  (if String.eqb (span_label s) ty then [Py.slice text s.1.1 s.1.2] else []).
Proof.
  unfold span_texts. rewrite List.filter_app, map_app. simpl.
  by destruct (String.eqb (span_label s) ty).
Qed.

Lemma span_texts_absent text ty offsets :
  ty ∉ map span_label offsets → span_texts text ty offsets = [].
Proof.
  unfold span_texts. induction offsets as [|s offsets IH]; simpl; [done|].
  intros Hnot. rewrite not_elem_of_cons in Hnot. destruct Hnot as [Hne Hnot].
  destruct (String.eqb_spec (span_label s) ty) as [Heq|_]; [done|].
  by apply IH.
Qed.

Lemma span_texts_present text ty offsets :
  ty ∈ map span_label offsets → span_texts text ty offsets ≠ [].
Proof.
  unfold span_texts. induction offsets as [|s offsets IH]; simpl.
  { intros H. by apply elem_of_nil in H. }
  rewrite elem_of_cons. intros [->|Hin].
  - by rewrite String.eqb_refl.
  - destruct (String.eqb (span_label s) ty); [done|]. by apply IH.
Qed.

Lemma first_seen_NoDup (l : list string) : NoDup (first_seen l).
Proof.
  induction l as [|a l IH]; simpl; [constructor|].
  apply NoDup_cons. split.
  - rewrite list_elem_of_In, List.filter_In. intros [_ H].
    by rewrite String.eqb_refl in H.
  - apply NoDup_ListNoDup, List.NoDup_filter. by apply NoDup_ListNoDup.
Qed.

(** Appending to the entry of a key that is present changes that entry
    only; a new key is added at the end. *)
Lemma setdefault_append_present label text (F : string → list string) keys :
  NoDup keys → label ∈ keys →
  setdefault_append label text (map (λ ty, (ty, F ty)) keys) =
  map (λ ty, (ty, if String.eqb ty label then F ty ++ [text] else F ty)) keys.
Proof.
  induction keys as [|k keys IH]; simpl.
  { intros _ H. by apply elem_of_nil in H. }
  intros [Hk Hnd]%NoDup_cons Hin.
  destruct (String.eqb_spec k label) as [->|Hne].
  - f_equal. apply List.map_ext_in. intros ty Hty%list_elem_of_In.
    destruct (String.eqb_spec ty label) as [->|]; [done|done].
  - rewrite IH; [done|done|]. rewrite elem_of_cons in Hin.
    destruct Hin as [->|]; [done|done].
Qed.

Lemma setdefault_append_absent label text (F : string → list string) keys :
  label ∉ keys →
  setdefault_append label text (map (λ ty, (ty, F ty)) keys) =
  map (λ ty, (ty, F ty)) keys ++ [(label, [text])].
Proof.
  induction keys as [|k keys IH]; simpl; [done|].
  intros [Hne Hnot]%not_elem_of_cons.
  destruct (String.eqb_spec k label) as [->|_]; [done|].
  by rewrite IH.
Qed.

Lemma group_spans_snoc text offsets (s : span) :
  group_spans text (offsets ++ [s]) =
  setdefault_append (span_label s) (Py.slice text s.1.1 s.1.2)
    (group_spans text offsets).
Proof.
  unfold group_spans. rewrite foldl_app. simpl.
  by destruct s as [[start end_] label].
Qed.

(** The dictionary built by the loop of lines 40-42: one entry per
    entity type in first-seen order, holding the span texts of the type
    in the order of the spans. *)
Lemma group_spans_spec text offsets :
  group_spans text offsets =
  map (λ ty, (ty, span_texts text ty offsets))
      (first_seen (map span_label offsets)).
Proof.
  induction offsets as [|s offsets IH] using rev_ind; [done|].
  rewrite group_spans_snoc, IH, map_app.
  change (map span_label [s]) with [span_label s]. rewrite first_seen_snoc.
  destruct (decide (span_label s ∈ map span_label offsets)) as [Hin|Hnot].
  - rewrite setdefault_append_present;
      [|apply first_seen_NoDup|by apply first_seen_elem].
    apply List.map_ext. intros ty. rewrite span_texts_snoc.
    rewrite (String.eqb_sym ty).
    destruct (String.eqb (span_label s) ty); [done|by rewrite app_nil_r].
  - rewrite setdefault_append_absent by (by rewrite first_seen_elem).
    rewrite map_app. simpl. f_equal.
    + apply List.map_ext_in. intros ty Hty%list_elem_of_In.
      rewrite first_seen_elem in Hty. rewrite span_texts_snoc.
      destruct (String.eqb_spec (span_label s) ty) as [Heq|_];
        [by rewrite Heq in Hnot|by rewrite app_nil_r].
    + rewrite span_texts_snoc, String.eqb_refl.
      by rewrite span_texts_absent.
Qed.

Lemma format_label_spec text offsets :
  format_label (group_spans text offsets) =
  Py.join LABEL_SEPARATOR
    (map (label_line text offsets) (first_seen (map span_label offsets))).
Proof.
  unfold format_label. rewrite group_spans_spec, !List.map_map. done.
Qed.

(** C1.  Whenever the label lookup and the tag-scheme bridge deliver the
    spans [offsets] for an example, [labels_to_spans] returns the text
    of the document together with the label string made of the lines
    [TYPE -> span1, span2, ...] joined by the line separator: one line
    for each entity type in the order of its first span, the texts of
    the spans of the type in their order joined by [", "], and exactly
    the types that have a span.  For the tokens [John lives in Berlin]
    tagged [B-PER O O B-LOC] the label string is
    [PER -> John] / [LOC -> Berlin]. *)
Theorem labels_to_spans_label_string :
  (∀ (T : NlpToolkit) (id2label : gmap Z string) (tokens : list string)
     (labels : list Z) (bio_tags bilou_tags : list string)
     (offsets : list span),
     traverse (getitem id2label) labels = Ok bio_tags →
     iob_to_biluo bio_tags = Ok bilou_tags →
     biluo_tags_to_offsets (make_doc tokens) bilou_tags = Ok offsets →
     let text := doc_text (make_doc tokens) in
     let types := first_seen (map span_label offsets) in
     labels_to_spans id2label (tokens, labels) =
       Ok (text, Py.join LABEL_SEPARATOR (map (label_line text offsets) types)) ∧
     (∀ ty, ty ∈ types ↔ span_texts text ty offsets ≠ []) ∧
     NoDup types) ∧
  @labels_to_spans spacy conll_id2label
     (["John"; "lives"; "in"; "Berlin"], [1; 0; 0; 3]%Z) =
    Ok ("John lives in Berlin ",
        "PER -> John" +:+ LABEL_SEPARATOR +:+ "LOC -> Berlin").
Proof.
  split; [|by vm_compute].
  intros T id2label tokens labels bio_tags bilou_tags offsets Hbio Hbilou Hoff.
  intros text types. split; [|split].
  - unfold labels_to_spans. rewrite Hbio. simpl. rewrite Hbilou. simpl.
    rewrite Hoff. simpl. by rewrite format_label_spec.
  - intros ty. unfold types. rewrite first_seen_elem. split.
    + apply span_texts_present.
    + intros Hne. destruct (decide (ty ∈ map span_label offsets)); [done|].
      by destruct Hne; apply span_texts_absent.
  - apply first_seen_NoDup.
Qed.

Lemma labels_to_spans_label_string_witness :
  @labels_to_spans spacy conll_id2label
     (["Al"; "met"; "Bo"; "in"; "New"; "York"], [1; 0; 1; 0; 3; 4]%Z) =
    Ok ("Al met Bo in New York ",
        "PER -> Al, Bo" +:+ LABEL_SEPARATOR +:+ "LOC -> New York").
Proof.
  apply (proj1 (proj1 labels_to_spans_label_string spacy conll_id2label
                  ["Al"; "met"; "Bo"; "in"; "New"; "York"] [1; 0; 1; 0; 3; 4]%Z
                  ["B-PER"; "O"; "B-PER"; "O"; "B-LOC"; "I-LOC"]
                  ["U-PER"; "O"; "U-PER"; "O"; "B-LOC"; "L-LOC"]
                  [(0, 2, "PER"); (7, 9, "PER"); (13, 21, "LOC")]
                  eq_refl eq_refl eq_refl)).
Defined.

End ForwardFacts.

(** * Locating the span texts in the backward converter *)

Section SearchFacts.
Import TokenClassification SpecDefs.


Lemma startswith_substring (s pat : string) :
  Py.startswith s pat = true ↔ String.substring 0 (String.length pat) s = pat.
Proof.
  revert s. induction pat as [|a pat IH]; intros s; simpl.
  { by destruct s. }
  destruct s as [|b s]; simpl; [done|].
  destruct (Ascii.eqb_spec a b) as [->|Hne].
  - rewrite IH. split; [by intros ->|by intros [=]].
  - split; [done|]. intros [=]. congruence.
Qed.









End SearchFacts.

(** * Lists of results, batches and the dataset container *)

Section Traverse.
Context {A B : Type} (f : A → result B).

Lemma traverse_Ok (l : list A) (ys : list B) :
  traverse f l = Ok ys ↔ Forall2 (λ x y, f x = Ok y) l ys.
Proof.
  revert ys. induction l as [|x l IH]; intros ys; simpl.
  - split; [intros [= <-]; constructor|by inversion 1].
  - destruct (f x) as [y|e] eqn:Hx; simpl.
    + destruct (traverse f l) as [ys'|e] eqn:Hl; simpl.
      * split.
        -- intros [= <-]. constructor; [done|by apply IH].
        -- inversion 1 as [|? y' ? ys'' Hy Hys]; subst.
           apply IH in Hys. congruence.
      * split; [done|]. inversion 1 as [|? y' ? ys'' Hy Hys]; subst.
        apply IH in Hys. congruence.
    + split; [done|]. inversion 1; congruence.
Qed.

Lemma traverse_length (l : list A) (ys : list B) :
  traverse f l = Ok ys → length ys = length l.
Proof. intros H%traverse_Ok. symmetry. by eapply Forall2_length. Qed.

End Traverse.

Section TraverseMore.

Lemma traverse_app_Ok {A B : Type} (f : A → result B) (l1 l2 : list A) (out : list B) :
  traverse f (l1 ++ l2) = Ok out ↔
  ∃ o1 o2, out = o1 ++ o2 ∧ traverse f l1 = Ok o1 ∧ traverse f l2 = Ok o2.
Proof.
  rewrite traverse_Ok. split.
  - intros (o1 & o2 & H1 & H2 & ->)%Forall2_app_inv_l.
    exists o1, o2. by rewrite !traverse_Ok.
  - intros (o1 & o2 & -> & H1%traverse_Ok & H2%traverse_Ok).
    by apply Forall2_app.
Qed.


Lemma bind_Ok {X Y : Type} (r : result X) (k : X → result Y) (o : Y) :
  (x ← r; k x) = Ok o ↔ ∃ a, r = Ok a ∧ k a = Ok o.
Proof.
  destruct r as [a|e]; cbn [mbind result_bind].
  - split; [by exists a|by intros (a' & [= <-] & ?)].
  - split; [done|by intros (a' & ? & ?)].
Qed.

Lemma traverse_cons_Ok {A B : Type} (f : A → result B) (x : A) (l : list A) (out : list B) :
  traverse f (x :: l) = Ok out ↔
  ∃ y ys, out = y :: ys ∧ f x = Ok y ∧ traverse f l = Ok ys.
Proof.
  cbn [traverse]. rewrite bind_Ok. split.
  - intros (y & Hy & (ys & Hys & [= <-])%bind_Ok). by exists y, ys.
  - intros (y & ys & -> & Hy & Hys). exists y. split; [done|].
    apply bind_Ok. by exists ys.
Qed.


Lemma traverse_concat_Ok {A B : Type} (f : A → result B) (ls : list (list A)) (out : list B) :
  traverse f (concat ls) = Ok out ↔
  ∃ outs, traverse (traverse f) ls = Ok outs ∧ out = concat outs.
Proof.
  revert out. induction ls as [|l ls IH]; intros out.
  { cbn. split; [intros [= <-]; by exists []|by intros (outs & [= <-] & ->)]. }
  cbn [concat]. split.
  - intros (o1 & o2 & -> & H1 & (outs & Houts & ->)%IH)%traverse_app_Ok.
    exists (o1 :: outs). split; [|done].
    apply traverse_cons_Ok. by exists o1, outs.
  - intros (outs & (o1 & outs' & -> & H1 & H2)%traverse_cons_Ok & ->).
    apply traverse_app_Ok.
    exists o1, (concat outs'). split; [done|]. split; [done|].
    apply IH. by exists outs'.
Qed.

End TraverseMore.

Section Batches.
Context {A : Type}.

Lemma batches_aux_concat (size room : nat) (cur rows : list A) :
  concat (batches_aux size room cur rows) = cur ++ rows.
Proof.
  revert room cur. induction rows as [|x rows IH]; intros room cur; simpl.
  - destruct cur; simpl; by rewrite ?app_nil_r.
  - destruct room; simpl; rewrite IH; [done|by rewrite <- app_assoc].
Qed.

Lemma batches_concat (size : nat) (rows : list A) :
  concat (batches size rows) = rows.
Proof. apply batches_aux_concat. Qed.

Lemma batches_Forall (P : A → Prop) (size : nat) (rows : list A) :
  Forall P rows → Forall (Forall P) (batches size rows).
Proof.
  intros H. apply Forall_concat. by rewrite batches_concat.
Qed.
Lemma batches_aux_fit (size room : nat) (cur rows : list A) :
  length rows ≤ room → cur ++ rows ≠ [] →
  batches_aux size room cur rows = [cur ++ rows].
Proof.
  revert room cur. induction rows as [|x rows IH]; intros room cur Hlen Hne.
  - rewrite app_nil_r in *. by destruct cur.
  - simpl in Hlen. destruct room as [|room]; [lia|]. cbn [batches_aux].
    rewrite IH; [by rewrite <- app_assoc|lia|by destruct cur].
Qed.

(** A dataset that fits into one batch is one batch. *)
Lemma batches_fit (size : nat) (rows : list A) :
  rows ≠ [] → length rows ≤ size → batches size rows = [rows].
Proof. intros Hne Hlen. by apply (batches_aux_fit size size []). Qed.

End Batches.

Section Container.
Import TokenClassification SpecDefs.


Lemma write_batch_Ok {B : Type} (writable : B → bool) (n : nat)
    (out written : list B) :
  write_batch writable n out = Ok written →
  written = out ∧ (out = [] ∨ (forallb writable out = true ∧ length out = n)).
Proof.
  destruct out as [|x out]; [intros [= <-]; by split; [|left]|].
  unfold write_batch.
  destruct (forallb writable (x :: out)); cbn [negb]; [|done].
  destruct (decide (length (x :: out) = n)); [|done].
  intros [= <-]. split; [done|]. by right.
Qed.


Lemma rename_added_column_Ok {B : Type} (written out : list B) :
  rename_added_column written = Ok out ↔ out = written ∧ written ≠ [].
Proof.
  destruct written as [|x written]; cbn [rename_added_column].
  - split; [done|by intros [_ ?]].
  - split; [by intros [= <-]|by intros [-> _]].
Qed.

(** The inverse dictionary maps a tag to an id that carries it, and it
    has an entry for every tag of the vocabulary. *)
Lemma label2id_of_spec (id2label : gmap Z string) :
  (∀ tag id, label2id_of id2label !! tag = Some id → id2label !! id = Some tag) ∧
  (∀ id tag, id2label !! id = Some tag → is_Some (label2id_of id2label !! tag)).
Proof.
  unfold label2id_of.
  apply (map_fold_weak_ind
    (λ (r : gmap string Z) (m : gmap Z string),
       (∀ tag id, r !! tag = Some id → m !! id = Some tag) ∧
       (∀ id tag, m !! id = Some tag → is_Some (r !! tag)))).
  - split; intros ??; rewrite lookup_empty; [done|done].
  - intros i x m r Hi [IH1 IH2]. split.
    + intros tag id. rewrite lookup_insert.
      destruct (decide (x = tag)) as [->|Hne].
      * intros [= <-]. by rewrite lookup_insert_eq.
      * intros Hr. pose proof (IH1 _ _ Hr) as Hm.
        rewrite lookup_insert_ne; [done|]. intros ->. congruence.
    + intros id tag. rewrite lookup_insert.
      destruct (decide (i = id)) as [->|Hne].
      * intros [= ->]. rewrite lookup_insert_eq. by eexists.
      * intros Hm. rewrite lookup_insert.
        destruct (decide (x = tag)); [by eexists|]. by eapply IH2.
Qed.






End Container.

(** * The backward converter on a dataset *)



Section BackwardDataset.
Import TokenClassification SpecDefs.
Context `{T : NlpToolkit}.





End BackwardDataset.



(** * Exceptions of the backward converter *)

Section BackwardErrors.
Import TokenClassification SpecDefs.
Context `{T : NlpToolkit}.






End BackwardErrors.

(** C4.  A batch that holds a row with an empty label string next to a
    row that is converted: the loop skips the first row, so the new
    columns have one entry while the batch has two rows, and the batched
    map rejects the batch.  Without the first row the second one is
    converted. *)
Theorem empty_label_breaks_batch :
  @TokenClassification.convert_rows SpecDefs.spacy
    [SpecDefs.row_empty_label; SpecDefs.row_al] = Ok [(["Al"], ["B-PER"])] ∧
  @TokenClassification.spans_to_token_labels SpecDefs.spacy
    [SpecDefs.row_empty_label; SpecDefs.row_al] SpecDefs.conll_id2label
    = Raise ArrowInvalid ∧
  @TokenClassification.spans_to_token_labels SpecDefs.spacy
    [SpecDefs.row_al] SpecDefs.conll_id2label = Ok [(["Al"], [1%Z])].
Proof. repeat split; by vm_compute. Qed.



(** * Splitting, trimming and lower-casing *)

Section StringFacts.
Import TokenClassification SpecDefs.

Lemma string_app_nil_r (s : string) : s +:+ "" = s.
Proof. induction s as [|c s IH]; simpl; [done|by rewrite IH]. Qed.

Lemma string_app_assoc (a b c : string) : (a +:+ b) +:+ c = a +:+ b +:+ c.
Proof. induction a as [|x a IH]; simpl; [done|by rewrite IH]. Qed.


Lemma search_from_shift (pat s : string) (k : nat) :
  Py.search_from pat k s = (λ i, k + i) <$> Py.search_from pat 0 s.
Proof.
  revert k. induction s as [|c s IH]; intros k; simpl.
  - destruct (Py.startswith "" pat); simpl; [by rewrite Nat.add_0_r|done].
  - destruct (Py.startswith (String c s) pat); simpl;
      [by rewrite Nat.add_0_r|].
    rewrite (IH (S k)), (IH 1).
    destruct (Py.search_from pat 0 s); simpl; [f_equal; lia|done].
Qed.

Lemma contains_nil (pat : string) : contains "" pat = Py.startswith "" pat.
Proof. unfold contains, Py.search. simpl. by destruct (Py.startswith "" pat). Qed.

Lemma contains_cons (c : ascii) (s pat : string) :
  contains (String c s) pat = Py.startswith (String c s) pat || contains s pat.
Proof.
  unfold contains, Py.search. simpl.
  destruct (Py.startswith (String c s) pat); simpl; [done|].
  rewrite search_from_shift. by destruct (Py.search_from pat 0 s).
Qed.

Lemma startswith_char (s : string) (c : ascii) :
  Py.startswith s (String c "") =
  match s with String x _ => Ascii.eqb c x | EmptyString => false end.
Proof. destruct s as [|x s]; simpl; [done|]. by destruct (Ascii.eqb c x). Qed.

Lemma contains_char_app (a b : string) (c : ascii) :
  contains (a +:+ b) (String c "") =
  contains a (String c "") || contains b (String c "").
Proof.
  induction a as [|x a IH]; simpl.
  - done.
  - rewrite !contains_cons, IH, !startswith_char. by rewrite orb_assoc.
Qed.

Lemma contains_char_head (c x : ascii) (s : string) :
  contains (String x s) (String c "") = false → Ascii.eqb c x = false.
Proof. rewrite contains_cons, startswith_char. by intros [? _]%orb_false_elim. Qed.

Lemma contains_tail (x : ascii) (s pat : string) :
  contains (String x s) pat = false → contains s pat = false.
Proof. rewrite contains_cons. by intros [_ ?]%orb_false_elim. Qed.

(** A string without the separator is one piece. *)
Lemma split_aux_no_sep (sep cur s : string) :
  contains s sep = false → Py.split_aux sep 0 cur s = [cur +:+ s].
Proof.
  revert cur. induction s as [|c s IH]; intros cur; simpl.
  - by rewrite string_app_nil_r.
  - rewrite contains_cons. intros [-> Hs]%orb_false_elim.
    rewrite IH by done. by rewrite string_app_assoc.
Qed.

(** Characters other than the first one of the separator are read into
    the current piece. *)
Lemma split_aux_skip_chars (c : ascii) (sep' cur a s : string) :
  contains a (String c "") = false →
  Py.split_aux (String c sep') 0 cur (a +:+ s) =
  Py.split_aux (String c sep') 0 (cur +:+ a) s.
Proof.
  revert cur. induction a as [|x a IH]; intros cur Ha; simpl.
  - by rewrite string_app_nil_r.
  - rewrite (contains_char_head _ _ _ Ha).
    rewrite IH by (by eapply contains_tail). by rewrite string_app_assoc.
Qed.

Lemma rstrip_app_space (s : string) : Py.rstrip (s +:+ " ") = Py.rstrip s.
Proof. induction s as [|c s IH]; simpl; [done|by rewrite IH]. Qed.

Lemma strip_app_space (s : string) : Py.strip (s +:+ " ") = Py.strip s.
Proof.
  unfold Py.strip. induction s as [|c s IH]; simpl; [done|].
  destruct (Py.isspace c); [done|].
  change (String c (s +:+ " ")) with (String c s +:+ " ").
  apply rstrip_app_space.
Qed.

Lemma strip_space_app (s : string) : Py.strip (" " +:+ s) = Py.strip s.
Proof. done. Qed.

(** The label line of one entity type splits into the type and the
    entity list. *)
Lemma split_label_line (ty ents : string) :
  contains ty "-" = false → contains ents LABEL2ENTITY_SEPARATOR = false →
  Py.split (ty +:+ " -> " +:+ ents) LABEL2ENTITY_SEPARATOR
    = [ty +:+ " "; " " +:+ ents].
Proof.
  intros Hty Hents. unfold Py.split, LABEL2ENTITY_SEPARATOR.
  rewrite split_aux_skip_chars by done. simpl.
  by rewrite split_aux_no_sep.
Qed.







End StringFacts.

(** * The forward converter on an example with one entity *)

Section ForwardSingle.
Import TokenClassification SpecDefs.




Lemma iob_to_biluo_aux_outside (a : nat) (rest out : list string) :
  Spacy.iob_to_biluo_aux 0 rest = Ok out →
  Spacy.iob_to_biluo_aux 0 (replicate a "O" ++ rest) = Ok (replicate a "O" ++ out).
Proof.
  intros Hrest. induction a as [|a IH]; [done|].
  cbn [replicate app Spacy.iob_to_biluo_aux]. by rewrite IH.
Qed.

Lemma iob_to_biluo_aux_only_outside (b : nat) :
  Spacy.iob_to_biluo_aux 0 (replicate b "O") = Ok (replicate b "O").
Proof.
  rewrite <- (app_nil_r (replicate b "O")) at 1.
  rewrite (iob_to_biluo_aux_outside b [] []); [by rewrite app_nil_r|done].
Qed.



Lemma tags_to_entities_aux_outside (i a : nat) (start : option nat)
    (rest : list string) :
  Spacy.tags_to_entities_aux i start (replicate a "O" ++ rest) =
  Spacy.tags_to_entities_aux (i + a) start rest.
Proof.
  revert i. induction a as [|a IH]; intros i; [by rewrite Nat.add_0_r|].
  cbn [replicate app]. change (Spacy.tags_to_entities_aux i start ("O" :: ?l))
    with (Spacy.tags_to_entities_aux (S i) start l).
  rewrite IH. f_equal. lia.
Qed.


Lemma tags_to_entities_aux_only_outside (i b : nat) (start : option nat) :
  Spacy.tags_to_entities_aux i start (replicate b "O") = Ok [].
Proof.
  rewrite <- (app_nil_r (replicate b "O")).
  by rewrite tags_to_entities_aux_outside.
Qed.











(** Words that are not empty make a document that the constructor
    accepts. *)
Lemma has_empty_token_words (words : list string) :
  Forall (λ word, word ≠ "") words →
  Spacy.has_empty_token (Spacy.doc_of_words words) = false.
Proof.
  unfold Spacy.has_empty_token, Spacy.doc_of_words. cbn [doc_tokens].
  intros Hwords.
  assert (Hfrom : ∀ start,
    existsb (λ t, String.length (tok_text t) =? 0)
            (Spacy.words_tokens start words) = false); [|apply Hfrom].
  induction Hwords as [|w words Hw _ IH]; intros start; [done|].
  cbn [Spacy.words_tokens existsb tok_text]. rewrite IH.
  by destruct w.
Qed.


End ForwardSingle.

(** * The tag conversion of one aligned span *)

Section AlignSingle.
Import TokenClassification SpecDefs.









Lemma set_range_length (biluo : list string) (a b : nat) (x : string) :
  length (Spacy.set_range biluo a b x) = length biluo.
Proof.
  unfold Spacy.set_range. generalize (b - a) as n. intros n.
  induction n as [|n IH]; [done|].
  rewrite seq_S, foldl_app. simpl. by rewrite length_insert.
Qed.




End AlignSingle.

(** * Encoding and decoding an example with one entity *)

Section RoundTrip.
Import TokenClassification SpecDefs.

Lemma startswith_hyphen_absent (s : string) :
  contains s "-" = false → Py.startswith s "-" = false.
Proof.
  destruct s as [|c s]; [done|].
  rewrite contains_cons. by intros [? _]%orb_false_elim.
Qed.

Lemma startswith_cons (c a : ascii) (s p : string) :
  Py.startswith (String c s) (String a p) = Ascii.eqb a c && Py.startswith s p.
Proof. cbn [Py.startswith]. by destruct (Ascii.eqb a c). Qed.











End RoundTrip.



(** * The answer start of the question-answering helpers *)

Section AnswerStart.
Import QuestionAnswering.

Lemma drop_length (i : nat) (s : string) :
  String.length (Py.drop i s) = String.length s - i.
Proof.
  revert s. induction i as [|i IH]; intros s; simpl; [lia|].
  destruct s as [|c s]; simpl; [done|apply IH].
Qed.

Lemma drop_drop (i j : nat) (s : string) :
  Py.drop j (Py.drop i s) = Py.drop (i + j) s.
Proof.
  revert s. induction i as [|i IH]; intros s; simpl; [done|].
  destruct s as [|c s]; simpl; [by destruct j|apply IH].
Qed.

Lemma substring_drop (i n : nat) (s : string) :
  String.substring i n s = String.substring 0 n (Py.drop i s).
Proof.
  revert s. induction i as [|i IH]; intros s; simpl; [done|].
  destruct s as [|c s]; simpl; [by destruct n|apply IH].
Qed.

Lemma startswith_length (s sub : string) :
  Py.startswith s sub = true → String.length sub ≤ String.length s.
Proof.
  revert s. induction sub as [|a sub IH]; intros s; simpl; [lia|].
  destruct s as [|b s]; [done|].
  destruct (Ascii.eqb a b); [|done]. intros H%IH. simpl. lia.
Qed.

Lemma occurs_in_matches (sub s : string) (i : nat) :
  occurs_in sub s i ↔ i ≤ String.length s ∧ Py.startswith (Py.drop i s) sub = true.
Proof.
  unfold occurs_in, Py.slice.
  replace (i + String.length sub - i) with (String.length sub) by lia.
  rewrite substring_drop, <- startswith_substring. split.
  - intros [Hlen Hm]. split; [lia|done].
  - intros [Hlen Hm]. split; [|done].
    apply startswith_length in Hm. rewrite drop_length in Hm. lia.
Qed.

Lemma search_nil (sub : string) :
  Py.search sub "" = if Py.startswith "" sub then Some 0 else None.
Proof. done. Qed.

Lemma search_cons (sub : string) (c : ascii) (s : string) :
  Py.search sub (String c s) =
  if Py.startswith (String c s) sub then Some 0 else S <$> Py.search sub s.
Proof.
  unfold Py.search. cbn [Py.search_from].
  destruct (Py.startswith (String c s) sub); [done|].
  by rewrite search_from_shift.
Qed.

Lemma search_Some_matches (sub s : string) (i : nat) :
  Py.search sub s = Some i →
  i ≤ String.length s ∧ Py.startswith (Py.drop i s) sub = true ∧
  ∀ j, j < i → Py.startswith (Py.drop j s) sub = false.
Proof.
  revert i. induction s as [|c s IH]; intros i.
  - rewrite search_nil. destruct (Py.startswith "" sub) eqn:Hm; [|done].
    intros [= <-]. split; [done|]. split; [done|]. intros j Hj. lia.
  - rewrite search_cons. destruct (Py.startswith (String c s) sub) eqn:Hm.
    + intros [= <-]. split; [simpl; lia|]. split; [done|]. intros j Hj. lia.
    + destruct (Py.search sub s) as [i'|]; [|done]. simpl. intros [= <-].
      destruct (IH i' eq_refl) as (Hlen & Hi & Hbefore).
      split; [simpl; lia|]. split; [done|].
      intros [|j] Hj; [done|]. apply Hbefore. lia.
Qed.

Lemma search_None_matches (sub s : string) (j : nat) :
  Py.search sub s = None → Py.startswith (Py.drop j s) sub = false.
Proof.
  revert j. induction s as [|c s IH]; intros j.
  - rewrite search_nil. destruct (Py.startswith "" sub) eqn:Hm; [done|].
    intros _. by destruct j.
  - rewrite search_cons. destruct (Py.startswith (String c s) sub) eqn:Hm;
      [done|].
    destruct (Py.search sub s) eqn:Hs; [done|]. intros _.
    destruct j as [|j]; [done|]. by apply IH.
Qed.

(** [find] returns the lowest offset from [start] on, or [-1]. *)
Lemma find_spec (s sub : string) (start : nat) :
  (find s sub start = (-1)%Z ∧
   ∀ j, start ≤ j ≤ String.length s → Py.startswith (Py.drop j s) sub = false) ∨
  (∃ k, find s sub start = Z.of_nat k ∧ start ≤ k ≤ String.length s ∧
        Py.startswith (Py.drop k s) sub = true ∧
        ∀ j, start ≤ j < k → Py.startswith (Py.drop j s) sub = false).
Proof.
  unfold find. destruct (String.length s <? start) eqn:Hlen.
  { apply Nat.ltb_lt in Hlen. left. split; [done|]. intros j Hj. lia. }
  apply Nat.ltb_ge in Hlen.
  destruct (Py.search sub (Py.drop start s)) as [i|] eqn:Hs.
  - right. exists (start + i).
    destruct (search_Some_matches _ _ _ Hs) as (Hi & Hm & Hbefore).
    rewrite drop_length in Hi. rewrite drop_drop in Hm.
    split; [done|]. split; [lia|]. split; [done|].
    intros j Hj. specialize (Hbefore (j - start) ltac:(lia)).
    rewrite drop_drop in Hbefore. by replace (start + (j - start)) with j in Hbefore by lia.
  - left. split; [done|]. intros j Hj.
    pose proof (search_None_matches _ _ (j - start) Hs) as Hno.
    rewrite drop_drop in Hno. by replace (start + (j - start)) with j in Hno by lia.
Qed.

(** The three outcomes of [calculate_answer_start]. *)
Lemma calculate_answer_start_outcome (example : flat_example) :
  let ctx := context example in
  let ans := answers example in
  let result := calculate_answer_start example in
  ((∀ i, ¬ occurs_in ans ctx i) ∧
   result = (FlatExample ctx ans (Some (-1)%Z), [AnswerNotInContext ctx ans])) ∨
  ((∃ i j, i ≠ j ∧ occurs_in ans ctx i ∧ occurs_in ans ctx j) ∧
   result = (FlatExample ctx ans (Some (-1)%Z), [AnswerMoreThanOnce])) ∨
  (∃ i, only_occurrence ans ctx i ∧
        result = (FlatExample ctx ans (Some (Z.of_nat i)), [])).
Proof.
  intros ctx ans result. unfold result, calculate_answer_start.
  fold ctx ans.
  destruct (find_spec ctx ans 0) as [[Hf Hno]|(k & Hf & Hk & Hm & Hbefore)];
    rewrite Hf.
  { left. split; [|done]. intros i [Hi Hmi]%occurs_in_matches.
    rewrite Hno in Hmi by lia. done. }
  replace (Z.of_nat k <? 0)%Z with false by (symmetry; apply Z.ltb_ge; lia).
  replace (Z.to_nat (Z.of_nat k + 1)) with (k + 1) by lia.
  assert (Hocc : occurs_in ans ctx k) by (apply occurs_in_matches; split; [lia|done]).
  destruct (find_spec ctx ans (k + 1))
    as [[Hf2 Hno2]|(k2 & Hf2 & Hk2 & Hm2 & _)]; rewrite Hf2.
  - right. right. exists k. split; [|done]. split; [done|].
    intros j [Hj Hmj]%occurs_in_matches.
    destruct (Nat.lt_trichotomy j k) as [Hlt|[->|Hgt]]; [|done|].
    + rewrite Hbefore in Hmj by lia. done.
    + rewrite Hno2 in Hmj by lia. done.
  - replace (Z.of_nat k2 >=? 0)%Z with true by (symmetry; apply Z.geb_le; lia).
    right. left. split; [|done]. exists k, k2. split; [lia|]. split; [done|].
    apply occurs_in_matches. split; [lia|done].
Qed.

(** X1.  When the answer occurs in the context at one offset only,
    [calculate_answer_start] stores that offset and logs nothing. *)
Theorem calculate_answer_start_unique (example : flat_example) (i : nat) :
  only_occurrence (answers example) (context example) i →
  calculate_answer_start example =
    (FlatExample (context example) (answers example) (Some (Z.of_nat i)), []).
Proof.
  intros [Hocc Honly].
  destruct (calculate_answer_start_outcome example)
    as [[Hno _]|[[(a & b & Hab & Ha & Hb) _]|(k & [Hk _] & ->)]].
  - by destruct (Hno i).
  - apply Honly in Ha, Hb. congruence.
  - by rewrite (Honly k Hk).
Qed.

(** X2.  When the answer does not occur in the context, or occurs at two
    different offsets, [calculate_answer_start] stores the sentinel [-1]
    and logs one message that tells the two cases apart. *)
Theorem calculate_answer_start_sentinel (example : flat_example) :
  ((∀ i, ¬ occurs_in (answers example) (context example) i) →
   calculate_answer_start example =
     (FlatExample (context example) (answers example) (Some (-1)%Z),
      [AnswerNotInContext (context example) (answers example)])) ∧
  (∀ i j, i ≠ j →
     occurs_in (answers example) (context example) i →
     occurs_in (answers example) (context example) j →
     calculate_answer_start example =
       (FlatExample (context example) (answers example) (Some (-1)%Z),
        [AnswerMoreThanOnce])).
Proof.
  split.
  - intros Hno.
    destruct (calculate_answer_start_outcome example)
      as [[_ ->]|[[(a & b & _ & Ha & _) _]|(k & [Hk _] & _)]]; [done| |].
    + by destruct (Hno a).
    + by destruct (Hno k).
  - intros i j Hij Hi Hj.
    destruct (calculate_answer_start_outcome example)
      as [[Hno _]|[[_ ->]|(k & [_ Honly] & _)]]; [|done|].
    + by destruct (Hno i).
    + apply Honly in Hi, Hj. congruence.
Qed.

(** X3.  Whatever the row, [postprocess_squad_format] with
    [add_answer_start] raises nothing on it; the start it stores is [-1]
    or the only offset at which the context reads the answer, and the
    text of the answer is unchanged. *)
Theorem postprocess_example_sound (example : flat_example) :
  ∃ start,
    (postprocess_example true example).1 =
      Ok (context example, NestedAnswer (answers example) start) ∧
    (start = (-1)%Z ∨
     ∃ i, start = Z.of_nat i ∧
          only_occurrence (answers example) (context example) i ∧
          Py.slice (context example) i (i + String.length (answers example))
            = answers example).
Proof.
  unfold postprocess_example.
  destruct (calculate_answer_start_outcome example)
    as [[_ ->]|[[_ ->]|(k & Hk & ->)]]; cbn.
  - exists (-1)%Z. split; [done|by left].
  - exists (-1)%Z. split; [done|by left].
  - exists (Z.of_nat k). split; [done|]. right. exists k.
    split; [done|]. split; [done|]. by destruct Hk as [[_ ?] _].
Qed.

(** X4.  A row without answers: [preprocess] gives the empty answer, for
    which [calculate_answer_start] stores [0] when the context is empty
    and otherwise [-1], logging that the answer occurs more than once. *)
Theorem calculate_answer_start_no_answer (ctx : string) :
  preprocess [] = "" ∧
  calculate_answer_start (FlatExample "" (preprocess []) None) =
    (FlatExample "" "" (Some 0%Z), []) ∧
  (ctx ≠ "" →
   calculate_answer_start (FlatExample ctx (preprocess []) None) =
     (FlatExample ctx "" (Some (-1)%Z), [AnswerMoreThanOnce])).
Proof.
  split; [done|]. split; [done|]. intros Hctx.
  assert (H0 : occurs_in "" ctx 0).
  { split; [simpl; lia|]. unfold Py.slice. by destruct ctx. }
  assert (H1 : occurs_in "" ctx 1).
  { split; [destruct ctx; [done|simpl; lia]|].
    unfold Py.slice. simpl. destruct ctx as [|c [|c' ctx]]; done. }
  change (preprocess []) with "".
  destruct (calculate_answer_start_outcome (FlatExample ctx "" None))
    as [[Hno _]|[[_ ->]|(k & [_ Honly] & _)]]; cbn [context answers] in *.
  - by destruct (Hno 0).
  - done.
  - apply Honly in H0, H1. congruence.
Qed.

(** X5.  Flattening a row whose last answer text occurs in the context
    at one offset only, and nesting it again with [add_answer_start],
    gives that text with that offset. *)
Theorem squad_round_trip (ctx : string) (texts : list string) (answer : string)
    (i : nat) :
  only_occurrence answer ctx i →
  postprocess_example true
    (FlatExample ctx (preprocess (texts ++ [answer])) None) =
    (Ok (ctx, NestedAnswer answer (Z.of_nat i)), []).
Proof.
  intros Honly.
  assert (Hpre : preprocess (texts ++ [answer]) = answer).
  { unfold preprocess. destruct (texts ++ [answer]) eqn:Heq.
    - by destruct texts.
    - rewrite <- Heq. apply List.last_last. }
  rewrite Hpre. unfold postprocess_example.
  destruct Honly as [Hocc Honly].
  destruct (calculate_answer_start_outcome (FlatExample ctx answer None))
    as [[Hno _]|[[(a & b & Hab & Ha & Hb) _]|(k & [Hk _] & ->)]];
    cbn [context answers] in *.
  - by destruct (Hno i).
  - apply Honly in Ha, Hb. congruence.
  - by rewrite (Honly k Hk).
Qed.

End AnswerStart.

Lemma calculate_answer_start_unique_witness :
  QuestionAnswering.calculate_answer_start
    (QuestionAnswering.FlatExample "John lives in Berlin" "Berlin" None) =
  (QuestionAnswering.FlatExample "John lives in Berlin" "Berlin" (Some 14%Z), []).
Proof.
  apply (calculate_answer_start_unique
           (QuestionAnswering.FlatExample "John lives in Berlin" "Berlin" None) 14).
  split.
  - split; [simpl; lia|reflexivity].
  - intros j [Hj Hm]%occurs_in_matches. simpl in Hj.
    do 21 (destruct j as [|j]; [by vm_compute in Hm|]). lia.
Defined.

Lemma calculate_answer_start_sentinel_witness :
  QuestionAnswering.calculate_answer_start
    (QuestionAnswering.FlatExample "to be or not to be" "be" None) =
  (QuestionAnswering.FlatExample "to be or not to be" "be" (Some (-1)%Z),
   [QuestionAnswering.AnswerMoreThanOnce]).
Proof.
  apply (proj2 (calculate_answer_start_sentinel
                  (QuestionAnswering.FlatExample "to be or not to be" "be" None))
           3 16).
  - lia.
  - split; [simpl; lia|reflexivity].
  - split; [simpl; lia|reflexivity].
Defined.

Lemma postprocess_example_sound_witness :
  ∃ start,
    (QuestionAnswering.postprocess_example true
       (QuestionAnswering.FlatExample "to be or not to be" "not" None)).1 =
      Ok ("to be or not to be", QuestionAnswering.NestedAnswer "not" start).
Proof.
  destruct (postprocess_example_sound
              (QuestionAnswering.FlatExample "to be or not to be" "not" None))
    as (start & Hstart & _).
  exists start. exact Hstart.
Defined.

Lemma calculate_answer_start_no_answer_witness :
  QuestionAnswering.calculate_answer_start
    (QuestionAnswering.FlatExample "abc" (QuestionAnswering.preprocess []) None) =
  (QuestionAnswering.FlatExample "abc" "" (Some (-1)%Z),
   [QuestionAnswering.AnswerMoreThanOnce]).
Proof.
  apply (proj2 (proj2 (calculate_answer_start_no_answer "abc"))). discriminate.
Defined.

Lemma squad_round_trip_witness :
  QuestionAnswering.postprocess_example true
    (QuestionAnswering.FlatExample "abcd"
       (QuestionAnswering.preprocess ["x"; "cd"]) None) =
  (Ok ("abcd", QuestionAnswering.NestedAnswer "cd" 2%Z), []).
Proof.
  apply (squad_round_trip "abcd" ["x"] "cd" 2).
  split.
  - split; [simpl; lia|reflexivity].
  - intros j [Hj Hm]%occurs_in_matches. simpl in Hj.
    do 5 (destruct j as [|j]; [by vm_compute in Hm|]). lia.
Defined.


(** * Further properties of the label remapper and the forward converter *)

Section MoreRemap.
Import Remap.

(** X6.  Expanding the entity types and mapping them back: when the
    second map sends every expanded type of the vocabulary back to the
    type it came from, and has no entry for the types the first map
    leaves alone, the two calls of [replace_token_labels] return the
    vocabulary they started from. *)
Theorem replace_token_labels_round_trip
    (id2label : gmap Z string) (expanded back : gmap string string) :
  (∀ idx tag ty, id2label !! idx = Some tag →
     tag = "B-" +:+ ty ∨ tag = "I-" +:+ ty →
     match expanded !! ty with
     | Some ty' => back !! ty' = Some ty
     | None => back !! ty = None
     end) →
  (replaced ← replace_token_labels id2label expanded;
   replace_token_labels replaced back) = Ok id2label.
Proof.
  intros Hback. rewrite replace_token_labels_fmap. cbn [mbind result_bind].
  rewrite replace_token_labels_fmap. f_equal.
  apply map_eq. intros idx. rewrite !lookup_fmap.
  destruct (id2label !! idx) as [tag|] eqn:Hidx; [|done]. simpl. f_equal.
  destruct (Py.startswith tag "B-") eqn:HB.
  { destruct (startswith_B _ HB) as [ty ->].
    specialize (Hback idx _ ty Hidx (or_introl eq_refl)).
    unfold new_tag at 2. rewrite replace_tag_B.
    destruct (expanded !! ty) as [ty'|]; unfold new_tag;
      by rewrite replace_tag_B, Hback. }
  destruct (Py.startswith tag "I-") eqn:HI.
  { destruct (startswith_I _ HI) as [ty ->].
    specialize (Hback idx _ ty Hidx (or_intror eq_refl)).
    unfold new_tag at 2. rewrite replace_tag_I.
    destruct (expanded !! ty) as [ty'|]; unfold new_tag;
      by rewrite replace_tag_I, Hback. }
  assert (¬ has_bio_prefix tag) as Hno
    by (apply startswith_false; by rewrite HB, HI).
  by rewrite (new_tag_other expanded tag Hno), (new_tag_other back tag Hno).
Qed.

End MoreRemap.

Lemma replace_token_labels_round_trip_witness :
  (replaced ← Remap.replace_token_labels Remap.example_id2label
                Remap.example_expanded;
   Remap.replace_token_labels replaced (<["PERSON" := "PER"]> ∅))
  = Ok Remap.example_id2label.
Proof.
  apply replace_token_labels_round_trip.
  intros idx tag ty Hidx Htag.
  destruct (decide (idx = 0%Z)) as [->|];
    [|destruct (decide (idx = 1%Z)) as [->|];
      [|destruct (decide (idx = 2%Z)) as [->|]]].
  - vm_compute in Hidx. injection Hidx as <-. by destruct Htag.
  - vm_compute in Hidx. injection Hidx as <-.
    destruct Htag as [[= <-]|[=]]. reflexivity.
  - vm_compute in Hidx. injection Hidx as <-.
    destruct Htag as [[=]|[= <-]]. reflexivity.
  - unfold Remap.example_id2label in Hidx.
    rewrite !lookup_insert_ne, lookup_empty in Hidx by done. discriminate.
Defined.

Section MoreForward.
Import TokenClassification SpecDefs.

Lemma replace_aux_cons (old new : string) (c : ascii) (s : string) :
  Py.replace_aux old new 0 (String c s) =
  if Py.startswith (String c s) old
  then new +:+ Py.replace_aux old new (String.length old - 1) s
  else String c (Py.replace_aux old new 0 s).
Proof. done. Qed.

Lemma replace_absent (a : ascii) (s new : string) :
  contains s "-" = false → Py.replace s (String a "-") new = s.
Proof.
  unfold Py.replace. induction s as [|c s IH]; [done|]. intros Hs.
  pose proof (contains_tail _ _ _ Hs) as Hs'.
  rewrite replace_aux_cons, startswith_cons.
  rewrite (startswith_hyphen_absent s Hs'), andb_false_r. by rewrite IH.
Qed.

(** On a tag whose entity type holds no hyphen the stripping of line 31
    returns the entity type. *)
Lemma strip_bio_entity_type (tag : string) :
  contains (entity_type tag) "-" = false → strip_bio tag = entity_type tag.
Proof.
  unfold entity_type, strip_bio.
  destruct (Py.startswith tag "B-") eqn:HB.
  { destruct (startswith_B _ HB) as [ty ->]. cbn [orb].
    change (Py.drop 2 ("B-" +:+ ty)) with ty. intros Hty.
    change (Py.replace ("B-" +:+ ty) "B-" "") with (Py.replace_aux "B-" "" 0 ty).
    fold (Py.replace ty "B-" "").
    by rewrite (replace_absent "B" ty "" Hty), (replace_absent "I" ty "" Hty). }
  destruct (Py.startswith tag "I-") eqn:HI.
  { destruct (startswith_I _ HI) as [ty ->]. cbn [orb].
    change (Py.drop 2 ("I-" +:+ ty)) with ty. intros Hty.
    change (Py.replace ("I-" +:+ ty) "B-" "")
      with (String "I" (String "-" (Py.replace ty "B-" ""))).
    rewrite (replace_absent "B" ty "" Hty).
    change (Py.replace (String "I" (String "-" ty)) "I-" "")
      with (Py.replace ty "I-" "").
    by rewrite (replace_absent "I" ty "" Hty). }
  cbn [orb]. intros Htag.
  by rewrite (replace_absent "B" tag "" Htag), (replace_absent "I" tag "" Htag).
Qed.

(** X7.  For a vocabulary that holds ["O"] and whose entity types hold
    no hyphen, the label options of the forward converter are the
    entity types of the tags other than ["O"]. *)
Theorem label_options_entity_types (id2label : gmap Z string) (outside : Z) :
  id2label !! outside = Some "O" →
  (∀ idx tag, id2label !! idx = Some tag →
     contains (entity_type tag) "-" = false) →
  ∃ options, label_options id2label = Ok options ∧
    ∀ ty, ty ∈ options ↔
          ty ≠ "O" ∧ ∃ idx tag, id2label !! idx = Some tag ∧ entity_type tag = ty.
Proof.
  intros Ho Htypes. unfold label_options.
  rewrite decide_True by (apply elem_of_label_set; by exists outside, "O").
  eexists. split; [done|]. intros ty.
  rewrite elem_of_difference, elem_of_singleton, elem_of_label_set. split.
  - intros [(idx & tag & Hidx & <-) Hne]. split; [done|].
    exists idx, tag. split; [done|]. symmetry. by eapply strip_bio_entity_type, Htypes.
  - intros [Hne (idx & tag & Hidx & <-)]. split; [|done].
    exists idx, tag. split; [done|]. by eapply strip_bio_entity_type, Htypes.
Qed.

Lemma traverse_getitem_missing {K V : Type} `{Countable K}
    (d : gmap K V) (keys : list K) (key : K) :
  key ∈ keys → d !! key = None → traverse (getitem d) keys = Raise KeyError.
Proof.
  induction keys as [|k keys IH]; [by intros ?%elem_of_nil|].
  intros Hin Hkey. cbn [traverse].
  assert (Hget : getitem d k = Raise KeyError ∨ ∃ v, d !! k = Some v ∧ getitem d k = Ok v).
  { unfold getitem. destruct (d !! k); [right; by eexists|by left]. }
  destruct Hget as [->|(v & Hk & ->)]; [reflexivity|].
  cbn [mbind result_bind]. rewrite IH; [reflexivity| |done].
  apply elem_of_cons in Hin as [->|]; [congruence|done].
Qed.

(** X8.  A label id that is not a key of [id2label] makes the forward
    converter raise [KeyError], for the row and, when the vocabulary
    holds ["O"], for a dataset that starts with the row. *)
Theorem labels_to_spans_unknown_label `{T : NlpToolkit}
    (id2label : gmap Z string) (tokens : list string) (labels : list Z)
    (label outside : Z) (rest : list (list string * list Z)) :
  label ∈ labels → id2label !! label = None →
  labels_to_spans id2label (tokens, labels) = Raise KeyError ∧
  (id2label !! outside = Some "O" →
   token_labels_to_spans ((tokens, labels) :: rest) id2label = Raise KeyError).
Proof.
  intros Hin Hlabel.
  assert (Hrow : labels_to_spans id2label (tokens, labels) = Raise KeyError).
  { unfold labels_to_spans. by rewrite (traverse_getitem_missing _ _ label). }
  split; [done|]. intros Ho. unfold token_labels_to_spans, label_options.
  rewrite decide_True by (apply elem_of_label_set; by exists outside, "O").
  cbn [mbind result_bind dataset_map traverse]. by rewrite Hrow.
Qed.

Lemma traverse_getitem_const {K V : Type} `{Countable K}
    (d : gmap K V) (keys : list K) (v : V) :
  (∀ key, key ∈ keys → d !! key = Some v) →
  traverse (getitem d) keys = Ok (replicate (length keys) v).
Proof.
  induction keys as [|k keys IH]; [done|]. intros Hall.
  cbn [traverse].
  assert (Hget : getitem d k = Ok v)
    by (unfold getitem; by rewrite (Hall k) by (by left)).
  rewrite Hget. cbn [mbind result_bind].
  rewrite IH; [reflexivity|]. intros key Hkey. apply Hall. by right.
Qed.

(** X9.  A row without an empty token all of whose labels stand for
    ["O"] gets the empty label string (with the toolkit model, for any
    tokenizer). *)
Theorem labels_to_spans_no_entity (tokenizer : string → list token)
    (id2label : gmap Z string) (tokens : list string) (labels : list Z) :
  Forall (λ word, word ≠ "") tokens →
  (∀ label, label ∈ labels → id2label !! label = Some "O") →
  @labels_to_spans (spacy_toolkit tokenizer) id2label (tokens, labels)
    = Ok (words_text tokens, "").
Proof.
  intros Hwords Hall. unfold labels_to_spans.
  rewrite (traverse_getitem_const _ _ "O") by done.
  cbn [mbind result_bind iob_to_biluo spacy_toolkit].
  unfold Spacy.iob_to_biluo. rewrite iob_to_biluo_aux_only_outside.
  cbn [mbind result_bind make_doc biluo_tags_to_offsets spacy_toolkit].
  rewrite (has_empty_token_words tokens Hwords).
  unfold Spacy.biluo_tags_to_offsets, Spacy.tags_to_entities.
  rewrite tags_to_entities_aux_only_outside. done.
Qed.

(** X10.  Every span that the backward converter collects from a label
    string lies inside the lower-cased text, in which it was found. *)
Theorem collect_spans_in_text (text str_label : string) (spans : list span) :
  collect_spans text str_label = Ok spans →
  Forall (λ s : span, s.1.1 ≤ s.1.2 ≤ String.length (Py.lower text)) spans.
Proof.
  assert (Hmatch : ∀ label entities,
    Forall (λ s : span, s.1.1 ≤ s.1.2 ≤ String.length (Py.lower text))
           (match_entities text label entities)).
  { intros label entities. induction entities as [|entity entities IH];
      [constructor|]. cbn [match_entities].
    destruct (Py.search entity (Py.lower text)) as [start|] eqn:Hs; [|done].
    constructor; [|done]. simpl.
    destruct (search_Some_matches _ _ _ Hs) as (Hlen & Hm%startswith_length & _).
    rewrite drop_length in Hm. lia. }
  unfold collect_spans.
  destruct (traverse (line_spans text) (Py.split str_label LABEL_SEPARATOR))
    as [per_line|] eqn:Hlines; [|done].
  cbn [mbind result_bind]. intros [= <-].
  apply Forall_concat. apply traverse_Ok in Hlines.
  apply Forall_forall. intros line_result Hin.
  apply list_elem_of_lookup in Hin as [i Hi].
  destruct (Forall2_lookup_r _ _ _ _ _ Hlines Hi) as (line & _ & Hline).
  unfold line_spans in Hline.
  destruct (unpack2 (Py.split line LABEL2ENTITY_SEPARATOR)) as [[label ents]|];
    [|done].
  cbn [mbind result_bind] in Hline. injection Hline as <-. apply Hmatch.
Qed.

End MoreForward.

Lemma label_options_entity_types_witness :
  ∃ options, TokenClassification.label_options SpecDefs.conll_id2label = Ok options ∧
    ∀ ty, ty ∈ options ↔
          ty ≠ "O" ∧ ∃ idx tag, SpecDefs.conll_id2label !! idx = Some tag ∧
                                SpecDefs.entity_type tag = ty.
Proof.
  apply (label_options_entity_types SpecDefs.conll_id2label 0%Z); [reflexivity|].
  intros idx tag Hidx.
  destruct (decide (idx = 0%Z)) as [->|];
    [|destruct (decide (idx = 1%Z)) as [->|];
      [|destruct (decide (idx = 2%Z)) as [->|];
        [|destruct (decide (idx = 3%Z)) as [->|];
          [|destruct (decide (idx = 4%Z)) as [->|]]]]];
    try (vm_compute in Hidx; injection Hidx as <-; reflexivity).
  unfold SpecDefs.conll_id2label in Hidx.
  rewrite !lookup_insert_ne, lookup_empty in Hidx by done. discriminate.
Defined.

Lemma labels_to_spans_unknown_label_witness :
  @TokenClassification.labels_to_spans SpecDefs.spacy SpecDefs.conll_id2label
    (["John"; "lives"], [1%Z; 7%Z]) = Raise KeyError.
Proof.
  apply (@labels_to_spans_unknown_label SpecDefs.spacy SpecDefs.conll_id2label
           ["John"; "lives"] [1%Z; 7%Z] 7%Z 0%Z []).
  - apply list_elem_of_In. simpl. auto.
  - reflexivity.
Defined.

Lemma labels_to_spans_no_entity_witness :
  @TokenClassification.labels_to_spans SpecDefs.spacy SpecDefs.conll_id2label
    (["it"; "rains"], [0%Z; 0%Z]) = Ok ("it rains ", "").
Proof.
  apply (labels_to_spans_no_entity Spacy.whitespace_tokenizer
           SpecDefs.conll_id2label ["it"; "rains"] [0%Z; 0%Z]).
  { by repeat (constructor; [discriminate|]). }
  intros label Hin. apply list_elem_of_In in Hin. simpl in Hin.
  destruct Hin as [<-|[<-|[]]]; reflexivity.
Defined.

Lemma collect_spans_in_text_witness :
  Forall (λ s : span, s.1.1 ≤ s.1.2 ≤ 21) [(0, 4, "PER"); (14, 20, "LOC")].
Proof.
  apply (collect_spans_in_text "John lives in Berlin "
           ("PER -> John" +:+ TokenClassification.LABEL_SEPARATOR +:+ "LOC -> Berlin")).
  reflexivity.
Defined.

(** * The backward converter, row by row *)


Section RowWiseFacts.
Import TokenClassification SpecDefs RowWise.
Context `{T : NlpToolkit}.






Lemma convert_rows_aligned (rows : list (string * string))
    (out : list (list string * list string)) :
  (∀ text spans biluo,
     offsets_to_biluo_tags (nlp text) spans = Ok biluo →
     length (biluo_to_iob biluo) = length (doc_tokens (nlp text))) →
  convert_rows rows = Ok out →
  Forall (λ r : list string * list string, length r.1 = length r.2) out.
Proof.
  intros Htoolkit. revert out.
  induction rows as [|[text str_label] rows IH]; intros out.
  { intros [= <-]. constructor. }
  cbn [convert_rows]. destruct (decide (str_label = "")); [apply IH|].
  intros (spans & _ & (tagged & Htagged & (out' & Hout' & [= <-])%bind_Ok)%bind_Ok)%bind_Ok.
  constructor; [|by apply IH].
  unfold align in Htagged.
  destruct (offsets_to_biluo_tags (nlp text) spans) as [biluo|e] eqn:Hbiluo.
  - injection Htagged as <-. cbn [fst snd].
    rewrite length_map. symmetry. by eapply Htoolkit.
  - destruct e; by try injection Htagged as <-.
Qed.

(** X13.  When the tag conversion of the toolkit returns one tag per
    token, every row of the dataset that the backward converter returns
    has as many tag ids as tokens. *)
Theorem spans_to_token_labels_aligned
    (dataset : list (string * string)) (id2label : gmap Z string)
    (out : list (list string * list Z)) :
  (∀ text spans biluo,
     offsets_to_biluo_tags (nlp text) spans = Ok biluo →
     length (biluo_to_iob biluo) = length (doc_tokens (nlp text))) →
  spans_to_token_labels dataset id2label = Ok out →
  Forall (λ example : list string * list Z,
            length example.1 = length example.2) out.
Proof.
  intros Htoolkit. unfold spans_to_token_labels, dataset_map_batched.
  intros (written & (outs & Houts & [= <-])%bind_Ok
                  & (renamed & Hren & [= <-])%bind_Ok)%bind_Ok.
  apply rename_added_column_Ok in Hren as [-> _].
  unfold dataset_filter. apply Forall_forall.
  intros example [Hin _]%list_elem_of_In%List.filter_In.
  apply List.in_concat in Hin as (batch_out & Hbatch & Hex).
  apply list_elem_of_In in Hbatch, Hex.
  apply traverse_Ok in Houts.
  apply list_elem_of_lookup in Hbatch as [i Hi].
  destruct (Forall2_lookup_r _ _ _ _ _ Houts Hi) as (batch & _ & Hrun).
  apply bind_Ok in Hrun as (o & Ho & Hcheck).
  apply write_batch_Ok in Hcheck as [-> _]. unfold labels_to_spans_batch in Ho.
  apply bind_Ok in Ho as (tagged & Htagged & Hids).
  pose proof (convert_rows_aligned _ _ Htoolkit Htagged) as Haligned.
  apply traverse_Ok in Hids.
  apply list_elem_of_lookup in Hex as [j Hj].
  destruct (Forall2_lookup_r _ _ _ _ _ Hids Hj) as ([tokens tags] & Hrow & Hlook).
  apply bind_Ok in Hlook as (ids & Hids' & [= <-]). cbn [fst snd].
  apply traverse_length in Hids'. rewrite Hids'.
  by apply (Forall_lookup_1 _ _ _ _ Haligned Hrow).
Qed.

End RowWiseFacts.

Section SpacyLength.

Lemma foldl_insert_length {A : Type} (f : list string → A → list string)
    (init : list string) (l : list A) :
  (∀ acc x, length (f acc x) = length acc) →
  length (foldl f init l) = length init.
Proof.
  intros Hf. revert init. induction l as [|x l IH]; intros init; [done|].
  simpl. by rewrite IH, Hf.
Qed.

Lemma tag_entity_length (tokens : list token) (biluo biluo' : list string)
    (seen seen' : list span) (entity : span) :
  Spacy.tag_entity tokens (biluo, seen) entity = Ok (biluo', seen') →
  length biluo' = length biluo.
Proof.
  unfold Spacy.tag_entity. destruct entity as [[start_char end_char] label].
  destruct (String.eqb label "").
  { intros [= <- _]. apply foldl_insert_length. intros acc [i t].
    destruct (Spacy.in_range _ _ _); [apply length_insert|done]. }
  destruct (Spacy.range_hits seen start_char end_char); [done|].
  destruct (Spacy.starts_get tokens start_char) as [start_token|];
    [|by intros [= <- _]].
  destruct (Spacy.ends_get tokens end_char) as [end_token|];
    [|by intros [= <- _]].
  destruct (start_token =? end_token); intros [= <- _].
  - apply length_insert.
  - by rewrite length_insert, set_range_length, length_insert.
Qed.

Lemma tag_entities_length (tokens : list token) (entities : list span)
    (biluo biluo' : list string) (seen seen' : list span) :
  Spacy.tag_entities tokens (biluo, seen) entities = Ok (biluo', seen') →
  length biluo' = length biluo.
Proof.
  revert biluo seen. induction entities as [|entity entities IH];
    intros biluo seen; cbn [Spacy.tag_entities].
  { by intros [= <- _]. }
  intros ([b s] & Hstep & Hrest)%bind_Ok.
  apply tag_entity_length in Hstep. apply IH in Hrest. congruence.
Qed.

(** The tag conversion of the toolkit model returns one tag per token. *)
Lemma spacy_offsets_to_biluo_tags_length (doc : Doc) (entities : list span)
    (biluo : list string) :
  Spacy.offsets_to_biluo_tags doc entities = Ok biluo →
  length (Spacy.biluo_to_iob biluo) = length (doc_tokens doc).
Proof.
  unfold Spacy.offsets_to_biluo_tags, Spacy.biluo_to_iob.
  intros ([b s] & Htag & [= <-])%bind_Ok.
  apply tag_entities_length in Htag. rewrite length_replicate in Htag.
  rewrite length_map, length_zip_with. lia.
Qed.

End SpacyLength.



Lemma spans_to_token_labels_aligned_witness :
  Forall (λ example : list string * list Z, length example.1 = length example.2)
    [(["Al"], [1%Z]); (["John"; "lives"; "in"; "Berlin"], [1%Z; 0%Z; 0%Z; 0%Z])].
Proof.
  apply (@spans_to_token_labels_aligned SpecDefs.spacy
           [SpecDefs.row_al; SpecDefs.row_john_paris] SpecDefs.conll_id2label).
  - intros text spans biluo. apply spacy_offsets_to_biluo_tags_length.
  - reflexivity.
Defined.

(** * The vocabulary in the backward converter *)

Section Vocabulary.
Import TokenClassification SpecDefs.

(** X14.  The dictionary [label2id] of line 70 sends a tag only to an id
    that carries it and has an entry for every tag of [id2label]; when no
    two ids carry the same tag it is the inverse of [id2label]. *)
Theorem label2id_inverse (id2label : gmap Z string) :
  (∀ tag id, label2id_of id2label !! tag = Some id → id2label !! id = Some tag) ∧
  (∀ id tag, id2label !! id = Some tag →
     ∃ id', label2id_of id2label !! tag = Some id' ∧ id2label !! id' = Some tag) ∧
  ((∀ i j tag, id2label !! i = Some tag → id2label !! j = Some tag → i = j) →
   ∀ id tag, id2label !! id = Some tag → label2id_of id2label !! tag = Some id).
Proof.
  destruct (label2id_of_spec id2label) as [Hinv Hdom].
  split; [done|]. split.
  - intros id tag Hid. destruct (Hdom id tag Hid) as [id' Hid'].
    exists id'. split; [done|by apply Hinv].
  - intros Hinj id tag Hid. destruct (Hdom id tag Hid) as [id' Hid'].
    rewrite Hid'. f_equal. eapply Hinj; [by apply Hinv|done].
Qed.

Lemma traverse_raise {A B : Type} (f : A → result B) (l : list A) (e : exn) (x : A) :
  Forall (λ y, f y = Raise e ∨ is_ok (f y)) l →
  x ∈ l → f x = Raise e → traverse f l = Raise e.
Proof.
  induction 1 as [|y l Hy _ IH]; [by intros ?%elem_of_nil|].
  intros Hin Hx. cbn [traverse].
  destruct Hy as [->|[b Hb]]; [reflexivity|]. rewrite Hb.
  cbn [mbind result_bind]. rewrite IH; [reflexivity| |done].
  apply elem_of_cons in Hin as [->|]; [congruence|done].
Qed.

Lemma traverse_getitem_outcome {K V : Type} `{Countable K}
    (d : gmap K V) (keys : list K) :
  traverse (getitem d) keys = Raise KeyError ∨ is_ok (traverse (getitem d) keys).
Proof.
  induction keys as [|k keys IH]; [right; by eexists|].
  cbn [traverse].
  assert (Hget : getitem d k = Raise KeyError ∨ ∃ v, getitem d k = Ok v).
  { unfold getitem. destruct (d !! k); [right; by eexists|by left]. }
  destruct Hget as [->|[v ->]]; [left; reflexivity|].
  cbn [mbind result_bind].
  destruct IH as [->|[vs ->]]; [left; reflexivity|right; by eexists].
Qed.

Context `{T : NlpToolkit}.

(** X15.  When the rows of a dataset of one batch are tagged and one of
    the tags is not a key of [label2id] (an entity type that the
    vocabulary does not hold, for instance), the backward converter
    raises [KeyError]. *)
Theorem spans_to_token_labels_unknown_tag
    (dataset : list (string * string)) (id2label : gmap Z string)
    (tagged : list (list string * list string))
    (tokens tags : list string) (tag : string) :
  dataset ≠ [] → length dataset ≤ batch_size →
  convert_rows dataset = Ok tagged →
  (tokens, tags) ∈ tagged → tag ∈ tags →
  label2id_of id2label !! tag = None →
  spans_to_token_labels dataset id2label = Raise KeyError.
Proof.
  intros Hne Hfit Htagged Hrow Htag Hmissing.
  unfold spans_to_token_labels, dataset_map_batched.
  rewrite batches_fit by done. cbn [traverse].
  unfold labels_to_spans_batch. rewrite Htagged. cbn [mbind result_bind].
  rewrite (traverse_raise _ tagged KeyError (tokens, tags));
    [reflexivity| |done|].
  - apply Forall_forall. intros [toks tgs] _.
    destruct (traverse_getitem_outcome (label2id_of id2label) tgs)
      as [->|[ids ->]]; [by left|right; by eexists].
  - by rewrite (traverse_getitem_missing _ _ tag).
Qed.

End Vocabulary.

Lemma label2id_inverse_witness :
  TokenClassification.label2id_of SpecDefs.conll_id2label !! "I-LOC" = Some 4%Z.
Proof.
  apply (proj2 (proj2 (label2id_inverse SpecDefs.conll_id2label)));
    [|reflexivity].
  intros i j tag Hi Hj.
  assert (Hkeys : ∀ k t, SpecDefs.conll_id2label !! k = Some t →
            (k = 0%Z ∧ t = "O") ∨ (k = 1%Z ∧ t = "B-PER")
            ∨ (k = 2%Z ∧ t = "I-PER") ∨ (k = 3%Z ∧ t = "B-LOC")
            ∨ (k = 4%Z ∧ t = "I-LOC")).
  { intros k t Hk. unfold SpecDefs.conll_id2label in Hk.
    repeat (apply lookup_insert_Some in Hk as [[<- <-]|[_ Hk]]; [tauto|]).
    by rewrite lookup_empty in Hk. }
  apply Hkeys in Hi, Hj.
  destruct Hi as [[-> ->]|[[-> ->]|[[-> ->]|[[-> ->]|[-> ->]]]]];
    destruct Hj as [[-> Ht]|[[-> Ht]|[[-> Ht]|[[-> Ht]|[-> Ht]]]]];
    first [reflexivity | discriminate Ht].
Defined.

Lemma spans_to_token_labels_unknown_tag_witness :
  @TokenClassification.spans_to_token_labels SpecDefs.spacy
    [("John lives in Berlin ", "FOO -> John")] SpecDefs.conll_id2label
  = Raise KeyError.
Proof.
  apply (@spans_to_token_labels_unknown_tag SpecDefs.spacy
           [("John lives in Berlin ", "FOO -> John")] SpecDefs.conll_id2label
           [(["John"; "lives"; "in"; "Berlin"], ["B-FOO"; "O"; "O"; "O"])]
           ["John"; "lives"; "in"; "Berlin"] ["B-FOO"; "O"; "O"; "O"] "B-FOO").
  - discriminate.
  - unfold batch_size. simpl. lia.
  - reflexivity.
  - apply list_elem_of_In. simpl. auto.
  - apply list_elem_of_In. simpl. auto.
  - reflexivity.
Defined.

(** * Decoding the label string of the forward converter *)

Section WireFacts.
Import TokenClassification SpecDefs WireFormat.

Lemma split_aux_skip (sep cur skipped s : string) :
  Py.split_aux sep (String.length skipped) cur (skipped +:+ s) =
  Py.split_aux sep 0 cur s.
Proof.
  induction skipped as [|c skipped IH]; [|exact IH].
  simpl. by destruct s.
Qed.

Lemma startswith_app_refl (sep s : string) : Py.startswith (sep +:+ s) sep = true.
Proof.
  induction sep as [|c sep IH]; [done|].
  cbn [String.append]. rewrite startswith_cons, IH. by rewrite Ascii.eqb_refl.
Qed.

Lemma contains_first_char (x : string) (c : ascii) (p : string) :
  contains x (String c "") = false → contains x (String c p) = false.
Proof.
  induction x as [|a x IH]; [done|]. intros Hx.
  rewrite contains_cons, startswith_cons.
  rewrite (contains_char_head _ _ _ Hx). by rewrite IH by (by eapply contains_tail).
Qed.

Lemma startswith_char_absent (x : string) (c : ascii) (p : string) :
  contains x (String c "") = false → Py.startswith x (String c p) = false.
Proof.
  destruct x as [|a x]; [done|]. intros Hx.
  rewrite startswith_cons. by rewrite (contains_char_head _ _ _ Hx).
Qed.

Lemma contains_second_char (x : string) (c1 c2 : ascii) (p : string) :
  contains x (String c2 "") = false →
  contains x (String c1 (String c2 p)) = false.
Proof.
  induction x as [|a x IH]; [done|]. intros Hx.
  pose proof (contains_tail _ _ _ Hx) as Hx'.
  rewrite contains_cons, startswith_cons.
  rewrite (startswith_char_absent x c2 p Hx'), andb_false_r.
  by rewrite IH.
Qed.

Lemma join_cons_cons (sep x y : string) (l : list string) :
  Py.join sep (x :: y :: l) = x +:+ sep +:+ Py.join sep (y :: l).
Proof. done. Qed.

Lemma join_prepend (sep a x : string) (l : list string) :
  a +:+ Py.join sep (x :: l) = Py.join sep ((a +:+ x) :: l).
Proof.
  destruct l as [|y l]; [done|].
  by rewrite !join_cons_cons, string_app_assoc.
Qed.

Lemma contains_char_join (sep : string) (c : ascii) (l : list string) :
  contains sep (String c "") = false →
  Forall (λ x, contains x (String c "") = false) l →
  contains (Py.join sep l) (String c "") = false.
Proof.
  intros Hsep. induction 1 as [|x l Hx Hl IH]; [done|].
  destruct l as [|y l]; [done|].
  rewrite join_cons_cons, !contains_char_app, Hx, Hsep. by rewrite IH.
Qed.

(** Splitting a joined list gives the list back when no element holds
    the first character of the separator. *)
Lemma split_aux_join (c : ascii) (sep' cur x : string) (l : list string) :
  Forall (λ y, contains y (String c "") = false) (x :: l) →
  Py.split_aux (String c sep') 0 cur (Py.join (String c sep') (x :: l))
  = (cur +:+ x) :: l.
Proof.
  revert cur x. induction l as [|y l IH]; intros cur x Hall.
  - apply split_aux_no_sep, contains_first_char.
    by apply Forall_inv in Hall.
  - rewrite join_cons_cons.
    rewrite split_aux_skip_chars by (by apply Forall_inv in Hall).
    change (String c sep' +:+ ?s) with (String c (sep' +:+ s)).
    cbn [Py.split_aux].
    change (String c (sep' +:+ ?s)) with (String c sep' +:+ s).
    rewrite startswith_app_refl.
    replace (String.length (String c sep') - 1) with (String.length sep')
      by (cbn [String.length]; lia).
    rewrite split_aux_skip, IH by (by apply Forall_inv_tail in Hall).
    done.
Qed.

Lemma split_join (c : ascii) (sep' x : string) (l : list string) :
  Forall (λ y, contains y (String c "") = false) (x :: l) →
  Py.split (Py.join (String c sep') (x :: l)) (String c sep') = x :: l.
Proof. intros Hall. unfold Py.split. by rewrite split_aux_join. Qed.

Lemma split_join_ne (c : ascii) (sep' : string) (l : list string) :
  l ≠ [] → Forall (λ y, contains y (String c "") = false) l →
  Py.split (Py.join (String c sep') l) (String c sep') = l.
Proof. destruct l; [done|]. intros _. apply split_join. Qed.

(** One line of the label string is decoded into the searches for the
    lower-cased span texts. *)
Lemma line_spans_format (text : string) (entry : string * list string) :
  plain_entry entry →
  line_spans text
    (entry.1 +:+ " -> " +:+ Py.join ENTITY_SEPARATOR entry.2)
  = Ok (match_entities text entry.1 (map Py.lower entry.2)).
Proof.
  destruct entry as [ty texts]. intros ((Hty1 & Hty2 & Hty3) & Hne & Htexts).
  cbn [fst snd] in *. destruct texts as [|t texts]; [done|].
  unfold line_spans. rewrite split_label_line; [|done|].
  2:{ apply contains_second_char, contains_char_join; [done|].
      eapply Forall_impl; [exact Htexts|]. by intros x (_ & ? & _). }
  cbn [unpack2 mbind result_bind].
  rewrite join_prepend. unfold ENTITY_SEPARATOR. rewrite split_join.
  2:{ apply Forall_cons. split.
      - cbn [String.append]. rewrite contains_cons.
        apply Forall_inv in Htexts as (_ & _ & Hc & _). by rewrite Hc.
      - apply Forall_inv_tail in Htexts.
        eapply Forall_impl; [exact Htexts|]. by intros x (_ & _ & ? & _). }
  rewrite strip_app_space, Hty3. do 2 f_equal.
  cbn [map]. rewrite strip_space_app.
  f_equal.
  - apply Forall_inv in Htexts as (_ & _ & _ & ->). done.
  - apply Forall_inv_tail in Htexts.
    induction Htexts as [|x l (_ & _ & _ & Hx) _ IH]; [done|].
    cbn [map]. by rewrite Hx, IH.
Qed.

Lemma label_line_no_break (entry : string * list string) :
  plain_entry entry →
  contains (entry.1 +:+ " -> " +:+ Py.join ENTITY_SEPARATOR entry.2)
    LABEL_SEPARATOR = false.
Proof.
  destruct entry as [ty texts]. intros ((_ & Hty & _) & _ & Htexts).
  cbn [fst snd] in *. unfold LABEL_SEPARATOR in *.
  rewrite !contains_char_app, Hty.
  rewrite contains_char_join; [done|done|].
  eapply Forall_impl; [exact Htexts|]. by intros x (? & _).
Qed.

Lemma format_label_lines (span_labels : list (string * list string)) :
  format_label span_labels =
  Py.join LABEL_SEPARATOR
    (map (λ entry, entry.1 +:+ " -> " +:+ Py.join ENTITY_SEPARATOR entry.2)
         span_labels).
Proof.
  unfold format_label. rewrite List.map_map. f_equal.
  apply List.map_ext. by intros [k v].
Qed.

(** X16.  The label string that the forward converter writes for a
    dictionary of plain entity types and span texts is decoded by the
    backward converter type by type and text by text: the spans
    collected are those found for the lower-cased texts, under their
    types, in the order of the label string. *)
Theorem collect_spans_format_label (text : string)
    (span_labels : list (string * list string)) :
  span_labels ≠ [] → Forall plain_entry span_labels →
  collect_spans text (format_label span_labels) =
    Ok (concat (map (λ entry, match_entities text entry.1 (map Py.lower entry.2))
                    span_labels)).
Proof.
  intros Hne Hplain. rewrite format_label_lines.
  unfold collect_spans, LABEL_SEPARATOR. rewrite split_join_ne.
  - assert (Hlines :
      traverse (line_spans text)
        (map (λ entry, entry.1 +:+ " -> " +:+ Py.join ENTITY_SEPARATOR entry.2)
             span_labels)
      = Ok (map (λ entry, match_entities text entry.1 (map Py.lower entry.2))
                span_labels)).
    { clear Hne. induction Hplain as [|e es He _ IH]; [done|].
      cbn [map traverse]. rewrite line_spans_format by done.
      cbn [mbind result_bind]. by rewrite IH. }
    by rewrite Hlines.
  - by destruct span_labels.
  - apply Forall_forall. intros line (e & -> & He)%list_elem_of_fmap.
    apply label_line_no_break. by eapply Forall_forall in Hplain.
Qed.

End WireFacts.

Lemma collect_spans_format_label_witness :
  TokenClassification.collect_spans "Al met Bo in New York "
    (TokenClassification.format_label
       [("PER", ["Al"; "Bo"]); ("LOC", ["New York"])])
  = Ok (concat [[(0, 2, "PER"); (7, 9, "PER")]; [(13, 21, "LOC")]]).
Proof.
  apply (collect_spans_format_label "Al met Bo in New York "
           [("PER", ["Al"; "Bo"]); ("LOC", ["New York"])]).
  - discriminate.
  - repeat match goal with
           | |- Forall _ _ => constructor
           | |- WireFormat.plain_entry _ => unfold WireFormat.plain_entry
           | |- WireFormat.plain_type _ => unfold WireFormat.plain_type
           | |- WireFormat.plain_text _ => unfold WireFormat.plain_text
           | |- _ ∧ _ => split
           | |- _ ≠ _ => discriminate
           | |- _ = _ => reflexivity
           end.
Defined.
